(** * Image segmentation with U-Net: the preprocessing, the model assembly
      and the training script of the notebook, embedded in Rocq.

    Conventions of the embedding.
    - A rank-3 tensor (height x width x channels) is a list of rows, a row a
      list of pixels, a pixel a list of channel values, together with its
      dtype.  Channel values are exact rationals ([Q]); the rounding of
      float32 arithmetic is not modelled.
    - A TensorFlow operation that raises returns [None].
    - The operations of TensorFlow and Keras that the notebook calls
      ([tf.image.resize], [tf.image.convert_image_dtype], [tf.argmax],
      [tf.image.flip_left_right], the Keras layers and MobileNetV2) are
      written out after the library's own code, every one under the name it
      has there. *)

From Stdlib Require Import ZArith QArith Qround List Sorted Ascii Lia Lqa.
From stdpp Require Import base option list strings gmap pretty.

Local Open Scope nat_scope.

(** ** Tensors *)

Inductive DType := uint8 | int64 | float32.

#[global] Instance DType_eq_dec : EqDecision DType.
Proof. solve_decision. Defined.

Definition is_integer (d : DType) : bool :=
  match d with float32 => false | _ => true end.

Definition is_floating (d : DType) : bool := negb (is_integer d).

(** [dtype.max].  [convert_image_dtype] reads it of integer dtypes only. *)
Definition dtype_max (d : DType) : Q :=
  match d with
  | uint8 => 255
  | int64 => inject_Z (2 ^ 63 - 1)
  | float32 => inject_Z ((2 ^ 24 - 1) * 2 ^ 104)
  end.

Definition Pixels := list (list (list Q)).

Record Tensor := mkTensor { dtype : DType; values : Pixels }.

Definition height (t : Tensor) : nat := length (values t).
Definition width (t : Tensor) : nat := length (hd [] (values t)).
Definition channels (t : Tensor) : nat := length (hd [] (hd [] (values t))).

(** Value of channel [c] of the pixel in row [y], column [x]. *)
Definition at_ (p : Pixels) (y x : Z) (c : nat) : Q :=
  nth c (nth (Z.to_nat x) (nth (Z.to_nat y) p []) []) 0%Q.

(** Every row of the tensor has [w] pixels and there are [h] rows. *)
Definition has_spatial (h w : nat) (t : Tensor) : Prop :=
  length (values t) = h /\ Forall (fun row => length row = w) (values t).

(** Every pixel of the tensor has [c] channels. *)
Definition has_channels (c : nat) (t : Tensor) : Prop :=
  Forall (Forall (fun px => length px = c)) (values t).

Definition all_values (P : Q -> Prop) (t : Tensor) : Prop :=
  Forall (Forall (Forall P)) (values t).

Definition is_int (v : Q) : Prop := exists k : Z, (v == inject_Z k)%Q.

Definition map_values (f : Q -> Q) (p : Pixels) : Pixels :=
  map (map (map f)) p.

(** ** [tf.image.resize] (bilinear, half-pixel centres, no antialiasing) *)

Module Resize.

(** [HalfPixelScaler]: the source coordinate of output index [i]. *)
Definition scaler (i : nat) (scale : Q) : Q :=
  ((inject_Z (Z.of_nat i) + (1 # 2)) * scale - (1 # 2))%Q.

Record CachedInterpolation :=
  { lower : Z; upper : Z; lerp : Q }.

(** [CalculateResizeScale] without [align_corners]. *)
Definition resize_scale (in_size out_size : nat) : Q :=
  (inject_Z (Z.of_nat in_size) / inject_Z (Z.of_nat out_size))%Q.

Definition compute_interpolation_weights
    (in_size : nat) (scale : Q) (i : nat) : CachedInterpolation :=
  let inp := scaler i scale in
  let in_f := Qfloor inp in
  {| lower := Z.max in_f 0;
     upper := Z.min (Qceiling inp) (Z.of_nat in_size - 1);
     lerp := (inp - inject_Z in_f)%Q |}.

Definition compute_lerp (top_left top_right bottom_left bottom_right
                         x_lerp y_lerp : Q) : Q :=
  let top := (top_left + (top_right - top_left) * x_lerp)%Q in
  let bottom := (bottom_left + (bottom_right - bottom_left) * x_lerp)%Q in
  (top + (bottom - top) * y_lerp)%Q.

(** The kernel of [ResizeBilinear] on one image of [ch] channels. *)
Definition resize_image (p : Pixels) (in_h in_w ch out_h out_w : nat)
  : Pixels :=
  let h_scale := resize_scale in_h out_h in
  let w_scale := resize_scale in_w out_w in
  map (fun y =>
    let ys := compute_interpolation_weights in_h h_scale y in
    map (fun x =>
      let xs := compute_interpolation_weights in_w w_scale x in
      map (fun c =>
        compute_lerp (at_ p (lower ys) (lower xs) c)
                     (at_ p (lower ys) (upper xs) c)
                     (at_ p (upper ys) (lower xs) c)
                     (at_ p (upper ys) (upper xs) c)
                     (lerp xs) (lerp ys))
        (seq 0 ch))
      (seq 0 out_w))
    (seq 0 out_h).

(** [tf.image.resize(images, size)] with the default method: an image of
    zero height or width is refused ("input image must be of non-zero
    size"), and so is an image without a channel ("image must have at
    least one channel"); the result is float32 whatever the dtype of the
    input. *)
Definition resize (images : Tensor) (size : nat * nat) : option Tensor :=
  if (height images =? 0) || (width images =? 0) then None
  else if channels images =? 0 then None
  else Some (mkTensor float32
               (resize_image (values images) (height images) (width images)
                  (channels images) (fst size) (snd size))).

End Resize.

(** ** [tf.image.convert_image_dtype] (with [saturate=False]) *)

Definition cast (d : DType) (v : Q) : Q :=
  if is_integer d then inject_Z (Z.quot (Qnum v) (Zpos (Qden v))) else v.

Definition convert_image_dtype (image : Tensor) (d : DType) : Tensor :=
  if decide (d = dtype image) then image
  else if is_integer (dtype image) && is_integer d then
    let scale_in := dtype_max (dtype image) in
    let scale_out := dtype_max d in
    if Qle_bool scale_out scale_in && negb (Qeq_bool scale_in scale_out) then
      let scale := Qfloor ((scale_in + 1) / (scale_out + 1))%Q in
      mkTensor d (map_values
        (fun v => cast d (inject_Z (Qfloor (v / inject_Z scale)%Q)))
        (values image))
    else
      let scale := Qfloor ((scale_out + 1) / (scale_in + 1))%Q in
      mkTensor d (map_values (fun v => (cast d v * inject_Z scale)%Q)
                    (values image))
  else if is_floating (dtype image) && is_floating d then
    mkTensor d (map_values (cast d) (values image))
  else if is_integer (dtype image) then
    let scale := (1 / dtype_max (dtype image))%Q in
    mkTensor d (map_values (fun v => (cast d v * scale)%Q) (values image))
  else
    let scale := (dtype_max d + (1 # 2))%Q in
    mkTensor d (map_values (fun v => cast d (v * scale)%Q) (values image)).

(** ** [tf.image.flip_left_right], comparisons, [tf.argmax] *)

(** [tf.image.flip_left_right]: the width axis is reversed. *)
Definition flip_left_right (t : Tensor) : Tensor :=
  mkTensor (dtype t) (map (@rev (list Q)) (values t)).

Definition Qlt_bool (x y : Q) : bool := negb (Qle_bool y x).

(** A batch of predictions: N x H x W x C. *)
Definition Batch := list Pixels.


(** Index of the first largest value, scanning from position [i]
    (TensorFlow does not promise which index a tie gives). *)
Fixpoint argmax_from (best_i : nat) (best : Q) (i : nat) (l : list Q) : nat :=
  match l with
  | [] => best_i
  | v :: l' =>
      if Qlt_bool best v then argmax_from i v (S i) l'
      else argmax_from best_i best (S i) l'
  end.

(** [tf.argmax] along an axis of one pixel: an empty axis is refused
    ("Reduction axis -1 is empty"). *)
Definition argmax (l : list Q) : option nat :=
  match l with
  | [] => None
  | v :: l' => Some (argmax_from 0 v 1 l')
  end.

(** [tf.argmax(pred_mask, axis=-1)]: N x H x W indices. *)
Definition tf_argmax (p : Batch) : option (list (list (list nat))) :=
  mapM (mapM (mapM argmax)) p.

(** [pred_mask[..., tf.newaxis]]: a last axis of length one (dtype int64). *)
Definition newaxis (p : list (list (list nat))) : Batch :=
  map (map (map (fun k => [inject_Z (Z.of_nat k)]))) p.

(** ** Keras: layers, symbolic tensors and the graph of a functional model *)

Module Keras.

(** Shape of a symbolic tensor without its batch axis: (H, W, C). *)
Definition Shape := (nat * nat * nat)%type.

Inductive Padding := same | valid.

Inductive LayerOp :=
| InputLayer (shape : Shape)
| Conv2D (filters kernel_size strides : nat) (padding : Padding)
| DepthwiseConv2D (kernel_size strides : nat) (padding : Padding)
| ZeroPadding2D (top bottom left right : nat)
| Conv2DTranspose (filters kernel_size strides : nat) (padding : Padding)
| BatchNormalization
| ReLU (max_value : option Q)
| Add
| Concatenate.

(** [conv_utils.conv_output_length]; a length that is not positive makes
    the layer raise. *)
Definition conv_output_length (input_length filter_size : nat)
    (padding : Padding) (stride : nat) : option nat :=
  match padding with
  | same => Some ((input_length + stride - 1) / stride)
  | valid =>
      if input_length <? filter_size then None
      else Some ((input_length - filter_size + 1 + stride - 1) / stride)
  end.

(** [conv_utils.deconv_output_length] without [output_padding]. *)
Definition deconv_output_length (input_length filter_size : nat)
    (padding : Padding) (stride : nat) : nat :=
  match padding with
  | same => input_length * stride
  | valid => input_length * stride + (filter_size - stride)
  end.

Definition compute_output_shape (op : LayerOp) (inputs : list Shape)
  : option Shape :=
  match op, inputs with
  | InputLayer s, [] => Some s
  | Conv2D f k s p, [(h, w, _)] =>
      h' ← conv_output_length h k p s;
      w' ← conv_output_length w k p s;
      Some (h', w', f)
  | DepthwiseConv2D k s p, [(h, w, c)] =>
      h' ← conv_output_length h k p s;
      w' ← conv_output_length w k p s;
      Some (h', w', c)
  | ZeroPadding2D t b l r, [(h, w, c)] => Some (h + t + b, w + l + r, c)
  | Conv2DTranspose f k s p, [(h, w, _)] =>
      Some (deconv_output_length h k p s, deconv_output_length w k p s, f)
  | BatchNormalization, [s] => Some s
  | ReLU _, [s] => Some s
  | Add, s :: rest =>
      if forallb (fun s' => bool_decide (s' = s)) rest then Some s else None
  | Concatenate, (h, w, c) :: rest =>
      if forallb (fun '(h', w', _) => (h' =? h) && (w' =? w)) rest
      then Some (h, w, c + list_sum (map snd rest))
      else None
  | _, _ => None
  end.

(** The layers that own variables. *)
Definition has_weights (op : LayerOp) : bool :=
  match op with
  | Conv2D _ _ _ _ | DepthwiseConv2D _ _ _ | Conv2DTranspose _ _ _ _
  | BatchNormalization => true
  | _ => false
  end.

(** A layer object: its variables are one list of numbers. *)
Record Layer := mkLayer
  { layer_name : string;
    op : LayerOp;
    trainable : bool;
    weights : list Q }.

(** A symbolic tensor: its shape, the node that produced it and its
    position among the outputs of that node. *)
Record KerasTensor := mkKT
  { kt_shape : Shape; kt_node : string; kt_index : nat }.

Definition history (x : KerasTensor) : string * nat :=
  (kt_node x, kt_index x).

(** A node of a functional graph: a layer, or a whole model used as a
    layer, applied to the tensors [inbound] (node and output position). *)
Record Node := mkNode
  { node_name : string;
    inbound : list (string * nat);
    input_shapes : list Shape;
    output_shapes : list Shape;
    node_layers : list Layer }.

(** What [compile] records. *)
Record Compiled := mkCompiled
  { optimizer : string; loss : string; metrics : list string }.

Record Model := mkModel
  { model_name : string;
    nodes : list Node;
    inputs : KerasTensor;
    outputs : list KerasTensor;
    compiled : option Compiled }.

Record Sequential := mkSequential
  { seq_name : string;
    seq_layers : list Layer }.

(** The state that building a model threads: the counters behind the
    automatic layer names, and the nodes created so far, in order. *)
Record Graph := mkGraph
  { uids : gmap string nat;
    created : list Node }.

Definition empty_graph : Graph := mkGraph ∅ [].

(** Building may raise ([None]) and updates the graph. *)
Definition M (A : Type) : Type := Graph -> option (A * Graph).

#[global] Instance M_ret : MRet M := fun A x g => Some (x, g).
#[global] Instance M_bind : MBind M := fun A B f m g =>
  match m g with
  | Some (x, g') => f x g'
  | None => None
  end.

Definition raise {A} : M A := fun _ => None.

Definition lift {A} (o : option A) : M A :=
  fun g => match o with Some x => Some (x, g) | None => None end.

Definition get_created : M (list Node) := fun g => Some (created g, g).

Definition add_node (n : Node) : M unit :=
  fun g => Some (tt, mkGraph (uids g) (created g ++ [n])).

(** [backend.unique_object_name]: "conv2d_transpose",
    "conv2d_transpose_1", ... when zero based, "input_1", "input_2", ...
    otherwise. *)
Definition unique_object_name (prefix : string) (zero_based : bool)
  : M string :=
  fun g =>
    let n := default 0 (uids g !! prefix) in
    let name :=
      if zero_based
      then (if n =? 0 then prefix else prefix +:+ "_" +:+ pretty n)
      else prefix +:+ "_" +:+ pretty (S n) in
    Some (name, mkGraph (<[prefix := S n]> (uids g)) (created g)).

Definition to_snake_case (op : LayerOp) : string :=
  match op with
  | InputLayer _ => "input"
  | Conv2D _ _ _ _ => "conv2d"
  | DepthwiseConv2D _ _ _ => "depthwise_conv2d"
  | ZeroPadding2D _ _ _ _ => "zero_padding2d"
  | Conv2DTranspose _ _ _ _ => "conv2d_transpose"
  | BatchNormalization => "batch_normalization"
  | ReLU _ => "re_lu"
  | Add => "add"
  | Concatenate => "concatenate"
  end.

(** What the constructors of the convolutions check of their arguments:
    [filters] is strictly positive, and neither [kernel_size] nor [strides]
    is zero. *)
Definition valid_args (o : LayerOp) : bool :=
  match o with
  | Conv2D f k s _ | Conv2DTranspose f k s _ =>
      (0 <? f) && (0 <? k) && (0 <? s)
  | DepthwiseConv2D k s _ => (0 <? k) && (0 <? s)
  | _ => true
  end.

Section Build.

(** The values the variables of a layer have when the layer is built:
    pretrained for the backbone, drawn by the initializer otherwise. *)
Variable init : string -> list Q.

(** Constructor of a layer object, named or not; it raises on arguments
    that are not valid. *)
Definition new_layer (name : option string) (o : LayerOp) : M Layer :=
  if valid_args o then
    name ← match name with
           | Some n => mret n
           | None => unique_object_name (to_snake_case o)
                       (match o with InputLayer _ => false | _ => true end)
           end;
    mret (mkLayer name o true (if has_weights o then init name else []))
  else raise.

(** [layer(inputs)]: the layer becomes a node of the graph. *)
Definition call (l : Layer) (xs : list KerasTensor) : M KerasTensor :=
  s ← lift (compute_output_shape (op l) (map kt_shape xs));
  _ ← add_node (mkNode (layer_name l) (map history xs)
                  (map kt_shape xs) [s] [l]);
  mret (mkKT s (layer_name l) 0).

Definition layer (name : option string) (o : LayerOp)
    (xs : list KerasTensor) : M KerasTensor :=
  l ← new_layer name o;
  call l xs.

(** [tf.keras.Sequential(layers, name=name)]. *)
Definition new_sequential (ls : list Layer) (name : string)
  : Sequential := mkSequential name ls.

Fixpoint sequential_shape (ls : list Layer) (s : Shape) : option Shape :=
  match ls with
  | [] => Some s
  | l :: rest =>
      s' ← compute_output_shape (op l) [s];
      sequential_shape rest s'
  end.

(** [sequential(x)]: one node that holds the layers of the stack. *)
Definition call_sequential (m : Sequential) (x : KerasTensor)
  : M KerasTensor :=
  s ← lift (sequential_shape (seq_layers m) (kt_shape x));
  _ ← add_node (mkNode (seq_name m) [history x] [kt_shape x] [s]
                  (seq_layers m));
  mret (mkKT s (seq_name m) 0).

(** The nodes the tensors named in [needed] depend on, out of the
    nodes created so far (given newest first), oldest first. *)
Fixpoint ancestors (newest_first : list Node) (needed : gset string)
  : list Node :=
  match newest_first with
  | [] => []
  | n :: rest =>
      if decide (node_name n ∈ needed)
      then ancestors rest (needed ∪ list_to_set (map fst (inbound n)))
           ++ [n]
      else ancestors rest needed
  end.

(** [tf.keras.Model(inputs=..., outputs=..., name=...)]. *)
Definition new_model (ins : KerasTensor) (outs : list KerasTensor)
    (name : option string) : M Model :=
  name ← match name with
         | Some n => mret n
         | None => unique_object_name "model" true
         end;
  ns ← get_created;
  mret (mkModel name
          (ancestors (rev ns) (list_to_set (map kt_node outs)))
          ins outs None).

Definition model_layers (m : Model) : list Layer :=
  flat_map node_layers (nodes m).

(** [model(x)]: a model used as a layer of another graph. *)
Definition call_model (m : Model) (x : KerasTensor)
  : M (list KerasTensor) :=
  if bool_decide (kt_shape x = kt_shape (inputs m)) then
    _ ← add_node (mkNode (model_name m) [history x] [kt_shape x]
                    (map kt_shape (outputs m)) (model_layers m));
    mret (imap (fun i o => mkKT (kt_shape o) (model_name m) i)
            (outputs m))
  else raise.

(** [model.get_layer(name)] and [layer.output]. *)
Definition get_layer (m : Model) (name : string) : option Node :=
  find (fun n => String.eqb (node_name n) name) (nodes m).

Definition output (n : Node) : option KerasTensor :=
  s ← head (output_shapes n);
  Some (mkKT s (node_name n) 0).

End Build.

(** [layer.trainable = b]. *)
Definition set_layer_trainable (b : bool) (l : Layer) : Layer :=
  mkLayer (layer_name l) (op l) b (weights l).

Definition set_node_trainable (b : bool) (n : Node) : Node :=
  mkNode (node_name n) (inbound n) (input_shapes n) (output_shapes n)
    (map (set_layer_trainable b) (node_layers n)).

(** [model.trainable = b]: the flag goes to every layer of the model. *)
Definition set_trainable (b : bool) (m : Model) : Model :=
  mkModel (model_name m) (map (set_node_trainable b) (nodes m))
    (inputs m) (outputs m) (compiled m).

(** [model.compile(optimizer=..., loss=..., metrics=...)]. *)
Definition compile (m : Model) (optimizer loss : string)
    (metrics : list string) : Model :=
  mkModel (model_name m) (nodes m) (inputs m) (outputs m)
    (Some (mkCompiled optimizer loss metrics)).

Definition run {A} (m : M A) : option A := fst <$> m empty_graph.

(** *** [model.fit] *)

Section Fit.

(** What one training step makes of the variables of a layer: the
    number of the step and the model as it is decide it (the batch, the
    loss, the gradients and the optimizer are all behind this
    function). *)
Variable update : nat -> Model -> Layer -> list Q.

(** A layer that is not trainable keeps its variables (a frozen
    [BatchNormalization] runs in inference mode and keeps its moving
    statistics too). *)
Definition train_layer (k : nat) (m : Model) (l : Layer) : Layer :=
  if trainable l && has_weights (op l)
  then mkLayer (layer_name l) (op l) (trainable l) (update k m l)
  else l.

Definition train_node (k : nat) (m : Model) (n : Node) : Node :=
  mkNode (node_name n) (inbound n) (input_shapes n) (output_shapes n)
    (map (train_layer k m) (node_layers n)).

Definition train_step (k : nat) (m : Model) : Model :=
  mkModel (model_name m) (map (train_node k m) (nodes m))
    (inputs m) (outputs m) (compiled m).

Fixpoint train_steps (k n : nat) (m : Model) : Model :=
  match n with
  | 0 => m
  | S n' => train_steps (S k) n' (train_step k m)
  end.

(** [model.fit(train, validation_data=test, epochs=..,
    steps_per_epoch=.., validation_steps=..)]: a model that was not
    compiled is refused, and so is an epoch of no step.  The batches are
    not arguments of this function: what a step does with its batch is
    behind [update], and a call that raises on its data (a batch that does
    not fit the input of the model, a record that cannot be preprocessed)
    has no counterpart here.  What is stated of [fit] is therefore stated
    of the calls that return, or of calls that raise for the two reasons
    above. *)
Definition fit (m : Model) (epochs steps_per_epoch validation_steps : nat)
  : option Model :=
  match compiled m with
  | None => None
  | Some _ =>
      if (0 <? epochs) && (steps_per_epoch =? 0) then None
      else Some (train_steps 0 (epochs * steps_per_epoch) m)
  end.

End Fit.

End Keras.

(** ** [tf.keras.applications.MobileNetV2] (alpha = 1, no top) *)

Module MobileNetV2.

Import Keras.

Definition make_divisible (v divisor : nat) : nat :=
  let new_v := Nat.max divisor ((v + divisor / 2) / divisor * divisor) in
  if 10 * new_v <? 9 * v then new_v + divisor else new_v.

(** [imagenet_utils.correct_pad]: the zero padding of a strided
    convolution, ((top, bottom), (left, right)). *)
Definition correct_pad (x : KerasTensor) (kernel_size : nat)
  : (nat * nat) * (nat * nat) :=
  let '(h, w, _) := kt_shape x in
  let adjust := (1 - h mod 2, 1 - w mod 2) in
  let correct := (kernel_size / 2, kernel_size / 2) in
  ((fst correct - fst adjust, fst correct),
   (snd correct - snd adjust, snd correct)).

(** [imagenet_utils.obtain_input_shape] for ImageNet weights without the
    top: three channels, and no side under [min_size]. *)
Definition obtain_input_shape (input_shape : Shape) (min_size : nat)
  : option Shape :=
  let '(h, w, c) := input_shape in
  if negb (c =? 3) then None
  else if (h <? min_size) || (w <? min_size) then None
  else Some input_shape.

Section Build.

Variable init : string -> list Q.

Definition inverted_res_block (inputs : KerasTensor)
    (expansion stride filters block_id : nat) : M KerasTensor :=
  let in_channels := snd (kt_shape inputs) in
  let pointwise_filters := make_divisible filters 8 in
  let prefix :=
    if block_id =? 0 then "expanded_conv_"
    else "block_" +:+ pretty block_id +:+ "_" in
  x ← (if block_id =? 0 then mret inputs
       else
         x ← layer init (Some (prefix +:+ "expand"))
               (Conv2D (expansion * in_channels) 1 1 same) [inputs];
         x ← layer init (Some (prefix +:+ "expand_BN"))
               BatchNormalization [x];
         layer init (Some (prefix +:+ "expand_relu"))
           (ReLU (Some 6%Q)) [x]);
  x ← (if stride =? 2
       then
         let '((t, b), (l, r)) := correct_pad x 3 in
         layer init (Some (prefix +:+ "pad")) (ZeroPadding2D t b l r) [x]
       else mret x);
  x ← layer init (Some (prefix +:+ "depthwise"))
        (DepthwiseConv2D 3 stride (if stride =? 1 then same else valid))
        [x];
  x ← layer init (Some (prefix +:+ "depthwise_BN")) BatchNormalization [x];
  x ← layer init (Some (prefix +:+ "depthwise_relu")) (ReLU (Some 6%Q)) [x];
  x ← layer init (Some (prefix +:+ "project"))
        (Conv2D pointwise_filters 1 1 same) [x];
  x ← layer init (Some (prefix +:+ "project_BN")) BatchNormalization [x];
  if (in_channels =? pointwise_filters) && (stride =? 1)
  then layer init (Some (prefix +:+ "add")) Add [inputs; x]
  else mret x.

(** The blocks after the first: (filters, stride, block_id), all of
    expansion 6. *)
Definition blocks : list (nat * nat * nat) :=
  [(24, 2, 1); (24, 1, 2);
   (32, 2, 3); (32, 1, 4); (32, 1, 5);
   (64, 2, 6); (64, 1, 7); (64, 1, 8); (64, 1, 9);
   (96, 1, 10); (96, 1, 11); (96, 1, 12);
   (160, 2, 13); (160, 1, 14); (160, 1, 15);
   (320, 1, 16)].

Fixpoint inverted_res_blocks (x : KerasTensor)
    (bs : list (nat * nat * nat)) : M KerasTensor :=
  match bs with
  | [] => mret x
  | (filters, stride, block_id) :: rest =>
      x ← inverted_res_block x 6 stride filters block_id;
      inverted_res_blocks x rest
  end.

Definition MobileNetV2 (input_shape : Shape) : M Model :=
  input_shape ← lift (obtain_input_shape input_shape 32);
  let '(rows, cols, _) := input_shape in
  let rows :=
    if (rows =? cols) && existsb (Nat.eqb rows) [96; 128; 160; 192; 224]
    then rows else 224 in
  img_input ← layer init None (InputLayer input_shape) [];
  let first_block_filters := make_divisible 32 8 in
  x ← layer init (Some "Conv1") (Conv2D first_block_filters 3 2 same)
        [img_input];
  x ← layer init (Some "bn_Conv1") BatchNormalization [x];
  x ← layer init (Some "Conv1_relu") (ReLU (Some 6%Q)) [x];
  x ← inverted_res_block x 1 1 16 0;
  x ← inverted_res_blocks x blocks;
  x ← layer init (Some "Conv_1") (Conv2D 1280 1 1 valid) [x];
  x ← layer init (Some "Conv_1_bn") BatchNormalization [x];
  x ← layer init (Some "out_relu") (ReLU (Some 6%Q)) [x];
  new_model img_input [x] (Some ("mobilenetv2_1.00_" +:+ pretty rows)).

End Build.

End MobileNetV2.

(** ** The notebook *)

Import Keras.

(** [INPUT_SHAPE = [128, 128, 3]] and [OUTPUT_CHANNELS = 3]. *)
Definition INPUT_SHAPE : Shape := (128, 128, 3).
Definition OUTPUT_CHANNELS : nat := 3.

(** A record of the [oxford_iiit_pet] dataset, as far as the notebook reads
    it: [data["image"]] and [data["segmentation_mask"]]. *)
Record Data := mkData { image : Tensor; segmentation_mask : Tensor }.

(** [t - k] for a float32 tensor and a Python number, as the exact
    difference: it is the float32 result wherever [v] and [v - k] are
    float32 numbers, as for the integers up to [2^24]. *)
Definition tensor_sub (t : Tensor) (k : Q) : Tensor :=
  mkTensor (dtype t) (map_values (fun v => (v - k)%Q) (values t)).

Definition read_and_preprocess (data : Data) : option (Tensor * Tensor) :=
  input_image ← Resize.resize (image data) (128, 128);
  input_mask ← Resize.resize (segmentation_mask data) (128, 128);
  let input_image := convert_image_dtype input_image float32 in
  let input_mask := tensor_sub input_mask 1 in
  Some (input_image, input_mask).


Definition AUGMENT_PROB : Q := 5 # 10.

(** [augment]: the value [u] is the outcome of [tf.random.uniform(())], a
    number of the interval [0,1). *)
Definition augment (u : Q) (img mask : Tensor) : Tensor * Tensor :=
  if Qlt_bool u AUGMENT_PROB
  then (flip_left_right img, flip_left_right mask)
  else (img, mask).


(** The [n] equally likely outcomes [0/n, 1/n, ..., (n-1)/n] of a uniform
    draw from [0,1) at resolution [1/n]. *)
Definition uniform_grid (n : nat) : list Q :=
  map (fun k => (inject_Z (Z.of_nat k) / inject_Z (Z.of_nat n))%Q) (seq 0 n).

(** Number of outcomes of the grid at which [augment] mirrors its input. *)
Definition flips (n : nat) : nat :=
  length (List.filter (fun u => Qlt_bool u AUGMENT_PROB) (uniform_grid n)).


Definition layer_names : list string :=
  ["block_1_expand_relu";   (* 64x64 *)
   "block_3_expand_relu";   (* 32x32 *)
   "block_6_expand_relu";   (* 16x16 *)
   "block_13_expand_relu";  (* 8x8 *)
   "block_16_project"].     (* 4x4 *)

Section Notebook.

Variable init : string -> list Q.

Definition base_model : M Model := MobileNetV2.MobileNetV2 init INPUT_SHAPE.

(** The feature extraction model, with [down_stack.trainable = False]. *)
Definition down_stack : M Model :=
  base_model ← base_model;
  base_model_outputs ←
    lift (mapM (fun name => get_layer base_model name ≫= output)
            layer_names);
  down_stack ← new_model (inputs base_model) base_model_outputs
                 (Some "pretrained_mobilenet");
  mret (set_trainable false down_stack).

End Notebook.

(** *** [create_mask] *)

Definition create_mask (pred_mask : Batch) : option Tensor :=
  pred_mask ← tf_argmax pred_mask;
  let pred_mask := newaxis pred_mask in
  im ← pred_mask !! 0;
  Some (mkTensor int64 im).


(** ** [pets_trainer/train.py] *)

Module Train.

Definition read_and_preprocess (data : Data) : option (Tensor * Tensor) :=
  input_image ← Resize.resize (image data) (128, 128);
  input_mask ← Resize.resize (segmentation_mask data) (128, 128);
  let input_image := convert_image_dtype input_image float32 in
  let input_mask := tensor_sub input_mask 1 in
  Some (input_image, input_mask).


(** [augment] of [pets_trainer/train.py]: the test is [> 0.5]. *)
Definition augment (u : Q) (img mask : Tensor) : Tensor * Tensor :=
  if Qlt_bool (5 # 10) u
  then (flip_left_right img, flip_left_right mask)
  else (img, mask).


Section Build.

Variable init : string -> list Q.

Definition upsample (filters size : nat) (name : string) : M Sequential :=
  c ← new_layer init None (Conv2DTranspose filters size 2 same);
  b ← new_layer init None BatchNormalization;
  r ← new_layer init None (ReLU None);
  mret (new_sequential [c; b; r] name).

(** The loop over [enumerate(zip(up_stack, skips))]. *)
Fixpoint upsampling (idx : nat) (x : KerasTensor)
    (pairs : list (Sequential * KerasTensor)) : M KerasTensor :=
  match pairs with
  | [] => mret x
  | (up, skip) :: rest =>
      x ← call_sequential up x;
      x ← layer init (Some ("expand_" +:+ pretty idx)) Concatenate
            [x; skip];
      upsampling (S idx) x rest
  end.

Definition build_unet (input_shape : Shape) (output_channels : nat)
  : M Model :=
  base_model ← MobileNetV2.MobileNetV2 init input_shape;
  base_model_outputs ←
    lift (mapM (fun name => get_layer base_model name ≫= output)
            layer_names);
  down_stack ← new_model (inputs base_model) base_model_outputs
                 (Some "pretrained_mobilenet");
  let down_stack := set_trainable false down_stack in
  u1 ← upsample 512 3 "upsample_4x4_to_8x8";
  u2 ← upsample 256 3 "upsample_8x8_to_16x16";
  u3 ← upsample 128 3 "upsample_16x16_to_32x32";
  u4 ← upsample 64 3 "upsample_32x32_to_64x64";
  let up_stack := [u1; u2; u3; u4] in
  inputs ← layer init (Some "input_image") (InputLayer input_shape) [];
  skips ← call_model down_stack inputs;
  x ← lift (last skips);
  let skips := rev (removelast skips) in
  x ← upsampling 0 x (zip up_stack skips);
  x ← layer init None (Conv2DTranspose output_channels 3 2 same) [x];
  new_model inputs [x] None.

End Build.

(** What [tfds.load(..., with_info=True)] tells about a dataset. *)
Record Info := mkInfo { train_num_examples : nat; test_num_examples : nat }.

(** The world around the script: the datasets that can be loaded, by
    directory and name, and the models saved so far, by path. *)
Record World := mkWorld
  { datasets : gmap (string * string) Info;
    saved : gmap string Model }.

(** Truth value of [output_dir]: [None] and the empty string are false. *)
Definition truthy (output_dir : option string) : option string :=
  match output_dir with
  | Some d => if String.eqb d "" then None else Some d
  | None => None
  end.

(** [model.save(path)]. *)
Definition save (m : Model) (path : string) (w : World) : World :=
  mkWorld (datasets w) (<[path := m]> (saved w)).

Section Run.

Variable init : string -> list Q.
Variable update : nat -> Model -> Layer -> list Q.

(** [train_evaluate].  A dataset of this world has both splits, with the
    numbers of examples that its info tells.  The two datasets that
    [create_train_test_datasets] makes are read by [fit] alone, whose
    steps are behind [update]; of the call that makes them this function
    keeps the failure that does not depend on the records, the batch size
    of zero.  A run that raises while [fit] reads the data has no
    counterpart here (see [fit]). *)
Definition train_evaluate (batch_size : nat) (tf_dataset data_dir : string)
    (input_shape : Shape) (output_channels epochs : nat)
    (output_dir : option string) (w : World) : option World :=
  info ← datasets w !! (data_dir, tf_dataset);
  if batch_size =? 0 then None else
  let steps_per_epoch := train_num_examples info / batch_size in
  let validation_steps := test_num_examples info / batch_size in
  model ← run (build_unet init input_shape output_channels);
  let model := compile model "adam" "SparseCategoricalCrossentropy"
                 ["accuracy"] in
  model ← fit update model epochs steps_per_epoch validation_steps;
  match truthy output_dir with
  | Some d => Some (save model d w)
  | None => Some w
  end.

End Run.

End Train.

(** ** Vocabulary of the statements *)



Definition px1 (v : Z) : list Q := [inject_Z v].
Definition rgb (r g b : Z) : list Q := [inject_Z r; inject_Z g; inject_Z b].

(** A record whose image is one row of two white pixels and whose mask
    labels the first pixel 1 and the second 2. *)
Definition white_record : Data :=
  mkData (mkTensor uint8 [[rgb 255 255 255; rgb 255 255 255]])
         (mkTensor uint8 [[px1 1; px1 2]]).

(** A tensor of one row whose two pixels differ, and the test that a pair
    of results is this tensor mirrored: its first pixel is then the last
    one of the tensor. *)
Definition probe : Tensor := mkTensor float32 [[[0%Q]; [1%Q]]].

Definition mirrored (r : Tensor * Tensor) : bool :=
  Qeq_bool (at_ (values (fst r)) 0 0 0) 1 &&
  Qeq_bool (at_ (values (snd r)) 0 0 0) 1.

(** Number of outcomes of the grid of [n] draws at which a version of
    [augment] mirrors what it is given. *)
Definition flips_of (aug : Q -> Tensor -> Tensor -> Tensor * Tensor)
    (n : nat) : nat :=
  length (List.filter (fun u => mirrored (aug u probe probe))
            (uniform_grid n)).


(** What the statements read of a node: name, inbound tensors, input and
    output shapes, and the operations of its layers. *)
Definition describe (n : Node)
  : string * list (string * nat) * list Shape * list Shape * list LayerOp :=
  (node_name n, inbound n, input_shapes n, output_shapes n,
   map op (node_layers n)).

(** The layers of the encoder inside the composed model, and the others. *)
Definition encoder_layers (m : Model) : list Layer :=
  from_option node_layers [] (get_layer m "pretrained_mobilenet").

Definition decoder_layers (m : Model) : list Layer :=
  flat_map node_layers
    (List.filter
       (fun n => negb (String.eqb (node_name n) "pretrained_mobilenet"))
       (nodes m)).

Definition frozen (l : Layer) : Prop := trainable l = false.

(** An update that changes every variable it is asked about. *)
Definition grow (k : nat) (m : Model) (l : Layer) : list Q :=
  0%Q :: weights l.

(** A world that holds the dataset of the notebook (3680 training and 3669
    test examples) and no saved model. *)
Definition pets_world : Train.World :=
  Train.mkWorld
    {[ ("gs://asl-public/data/tensorflow_datasets", "oxford_iiit_pet")
       := Train.mkInfo 3680 3669 ]}
    ∅.

Definition ones (name : string) : list Q := [1%Q].

(** The invariant of the graph under construction: a node that bears the
    name of the encoder holds frozen layers only. *)
Definition encoder_frozen (g : Graph) : Prop :=
  Forall (fun n => node_name n = "pretrained_mobilenet" ->
                   Forall frozen (node_layers n)) (created g).

(** [c] started in a graph of [P] ends, when it returns, with a value and
    a graph of [Q]. *)
Definition hoare {A} (P : Graph -> Prop) (c : M A)
    (Q : A -> Graph -> Prop) : Prop :=
  forall g a g', P g -> c g = Some (a, g') -> Q a g'.

(** First character of a name. *)
Definition initial (s : string) : option Ascii.ascii :=
  match s with
  | EmptyString => None
  | String c _ => Some c
  end.

Definition not_p (s : string) : Prop := initial s <> Some "p"%char.

(** ** Vocabulary of the further properties *)

(** Two pixel arrays of the same shape whose values are related one by
    one. *)
Definition pointwise (R : Q -> Q -> Prop) (a b : Pixels) : Prop :=
  Forall2 (Forall2 (Forall2 R)) a b.

(** A tensor of [h] rows of [w] pixels of [c] channels. *)
Definition has_shape (h w c : nat) (t : Tensor) : Prop :=
  has_spatial h w t /\ has_channels c t.

(** A record as the dataset gives it: a uint8 image of three channels and
    a uint8 mask of one channel with the labels 1, 2, 3, both [h] by [w]. *)
Definition pet_record (h w : nat) (data : Data) : Prop :=
  has_shape h w 3 (image data) /\
  has_shape h w 1 (segmentation_mask data) /\
  all_values (fun v => (0 <= v <= 255)%Q) (image data) /\
  all_values (fun v => (1 <= v <= 3)%Q) (segmentation_mask data).

(** The values of a uint8 tensor: whole numbers from 0 to 255.  On them
    the arithmetic of float32 is exact. *)
Definition uint8_values (t : Tensor) : Prop :=
  all_values (fun v => exists k : Z, (v == inject_Z k)%Q /\ (0 <= k <= 255)%Z)
    t.

(** A record of one colour and one label, already of the target size. *)
Definition plain_record : Data :=
  mkData (mkTensor uint8 (repeat (repeat (rgb 10 20 30) 128) 128))
         (mkTensor uint8 (repeat (repeat (px1 2) 128) 128)).

(** The column a pixel of column [x] comes from, in a row of [w] pixels:
    [x] itself, or its mirror image. *)
Definition mirror (w x : nat) : nat := w - 1 - x.

(** [f] keeps the order of the numbers. *)
Definition monotone (f : Q -> Q) : Prop :=
  forall x y, (x < y)%Q <-> (f x < f y)%Q.

(** [f] applied to every value of a batch. *)
Definition map_batch (f : Q -> Q) (p : Batch) : Batch :=
  map (map_values f) p.

(** What training must not touch of a layer: its name, its operation and
    its flag. *)
Definition signature (l : Layer) : string * LayerOp * bool :=
  (layer_name l, op l, trainable l).

(** What [compile] records in [train_evaluate]. *)
Definition adam_compiled : Compiled :=
  mkCompiled "adam" "SparseCategoricalCrossentropy" ["accuracy"].

(** [OUTPUT_DIR = f"gs://{BUCKET}/pets/models/{TIMESTAMP}"]. *)
Definition OUTPUT_DIR (BUCKET TIMESTAMP : string) : string :=
  "gs://" +:+ BUCKET +:+ "/pets/models/" +:+ TIMESTAMP.

(** The number of epochs of the training job, [EPOCHS = 50]. *)
Definition JOB_EPOCHS : nat := 50.

Section Job.

Variable init : string -> list Q.
Variable update : nat -> Model -> Layer -> list Q.

(** The container of the custom job runs [train.py] with the arguments
    [--output_dir={OUTPUT_DIR}] and [--epochs={EPOCHS}]: [train_evaluate]
    with these two parameters and the defaults of the others. *)
Definition custom_job (BUCKET TIMESTAMP : string) (w : Train.World)
  : option Train.World :=
  Train.train_evaluate init update 64 "oxford_iiit_pet"
    "gs://asl-public/data/tensorflow_datasets" (128, 128, 3) 3 JOB_EPOCHS
    (Some (OUTPUT_DIR BUCKET TIMESTAMP)) w.

End Job.

Definition is_trainable (l : Layer) : Prop := trainable l = true.

(** The second invariant of the graph under construction: a node that does
    not bear the name of the encoder holds trainable layers only. *)
Definition decoder_trainable (g : Graph) : Prop :=
  Forall (fun n => node_name n <> "pretrained_mobilenet" ->
                   Forall is_trainable (node_layers n)) (created g).

(** ** [tf.data]: the datasets of [pets_trainer/train.py]

    A finite dataset is the list of its elements in the order of iteration.
    What is random is read from explicit sources: the draws of
    [tf.random.uniform] and the positions that the shuffle buffer picks.
    A dataset whose iteration raises is [None]. *)

Module TrainData.

(** The random sources of one iteration over the training set. *)
Record Rand := mkRand { draw : nat -> Q; pick : nat -> nat }.

(** [dataset.map(f)]: iterating raises when [f] raises on an element. *)
Definition ds_map {A B} (f : A -> option B) (ds : list A) : option (list B) :=
  mapM f ds.

(** [dataset.map(augment)]: element [i] is augmented with draw [i]. *)
Definition map_augment (draw : nat -> Q) (ds : list (Tensor * Tensor)) : list (Tensor * Tensor) :=
  imap (fun i ex => Train.augment (draw i) (fst ex) (snd ex)) ds.

(** [dataset.shuffle(buffer_size)]: the buffer is filled with the first
    elements; every step emits the element at a picked position of the
    buffer and puts the next element of the input, while there is one, in
    its place. *)
Fixpoint shuffle_go {A} (pick : nat -> nat) (k fuel : nat)
    (buffer rest : list A) : list A :=
  match fuel with
  | 0 => []
  | S fuel' =>
      match buffer with
      | [] => []
      | b0 :: _ =>
          let i := pick k mod length buffer in
          let x := nth i buffer b0 in
          match rest with
          | y :: rest' =>
              x :: shuffle_go pick (S k) fuel' (<[i := y]> buffer) rest'
          | [] => x :: shuffle_go pick (S k) fuel' (delete i buffer) []
          end
      end
  end.

Definition shuffle {A} (buffer_size : nat) (pick : nat -> nat) (ds : list A)
  : list A :=
  shuffle_go pick 0 (length ds) (take buffer_size ds) (drop buffer_size ds).

(** Consecutive elements in groups of [batch_size], the last group with
    what is left. *)
Fixpoint chunks_go {A} (fuel batch_size : nat) (ds : list A) : list (list A) :=
  match fuel, ds with
  | S fuel', _ :: _ =>
      take batch_size ds :: chunks_go fuel' batch_size (drop batch_size ds)
  | _, _ => []
  end.

Definition chunks {A} (batch_size : nat) (ds : list A) : list (list A) :=
  chunks_go (length ds) batch_size ds.

(** The shape of a tensor, (height, width, channels), and of an example,
    an image with its mask. *)
Definition tensor_shape (t : Tensor) : nat * nat * nat :=
  (height t, width t, channels t).

Definition example_shape (ex : Tensor * Tensor)
  : (nat * nat * nat) * (nat * nat * nat) :=
  (tensor_shape (fst ex), tensor_shape (snd ex)).

(** The examples of a batch are stacked into one tensor per component:
    examples of different shapes cannot be batched. *)
Definition stack (b : list (Tensor * Tensor))
  : option (list (Tensor * Tensor)) :=
  match b with
  | [] => Some []
  | x :: rest =>
      if forallb (fun y => bool_decide (example_shape y = example_shape x))
           rest
      then Some b else None
  end.

(** [dataset.batch(batch_size)]: consecutive elements in groups of
    [batch_size], the last group with what is left; iterating raises at a
    group whose elements differ in shape. *)
Definition batch (batch_size : nat) (ds : list (Tensor * Tensor))
  : option (list (list (Tensor * Tensor))) :=
  mapM stack (chunks batch_size ds).

(** The training dataset repeats: iteration [e] over the training set
    gives, with the random sources of that iteration, a list of batches. *)
Definition TrainDs := (nat -> Rand) -> nat -> option (list (list (Tensor * Tensor))).

(** [create_train_test_datasets(dataset, batch_size)]: a missing split
    raises, and so does a batch size of zero (the shuffle buffer and the
    batches need a positive size); a record that cannot be preprocessed
    and a batch of examples of different shapes raise when the dataset is
    iterated.  [cache] and [prefetch] change no element. *)
Definition create_train_test_datasets (dataset : gmap string (list Data))
    (batch_size : nat) : option (TrainDs * option (list (list (Tensor * Tensor)))) :=
  train ← dataset !! "train";
  test ← dataset !! "test";
  if batch_size =? 0 then None else
  let train_ds : TrainDs := fun rand e =>
    cached ← ds_map Train.read_and_preprocess train;
    batch batch_size
      (shuffle (10 * batch_size) (pick (rand e))
         (map_augment (draw (rand e)) cached)) in
  let test_ds :=
    preprocessed ← ds_map Train.read_and_preprocess test;
    batch batch_size preprocessed in
  Some (train_ds, test_ds).

End TrainData.

(** The records of a split whose images have [ci] channels and whose masks
    have [cm]. *)
Definition same_channels (ci cm : nat) (ds : list Data) : Prop :=
  Forall (fun d => channels (image d) = ci /\
                   channels (segmentation_mask d) = cm) ds.

(** A record that [read_and_preprocess] refuses: its image or its mask has
    no row, no column or no channel. *)
Definition empty_record (d : Data) : Prop :=
  height (image d) = 0 \/ width (image d) = 0 \/ channels (image d) = 0 \/
  height (segmentation_mask d) = 0 \/ width (segmentation_mask d) = 0 \/
  channels (segmentation_mask d) = 0.

(** An example of 128 by 128 pixels whose image has [ci] channels and
    whose mask has [cm]. *)
Definition shaped (ci cm : nat) (ex : Tensor * Tensor) : Prop :=
  has_shape 128 128 ci (fst ex) /\ has_shape 128 128 cm (snd ex).

(** An example after augmentation: the example, or its mirror image. *)
Definition augmented (o a : (Tensor * Tensor)) : Prop :=
  a = o \/ a = (flip_left_right (fst o), flip_left_right (snd o)).

(** A dataset of two training records and three test records. *)
Definition small_dataset : gmap string (list Data) :=
  {[ "train" := [white_record; white_record];
     "test" := [white_record; white_record; white_record] ]}.

(** A record with a one-channel image, and a dataset whose test split
    holds it beside a record with a three-channel image. *)
Definition gray_record : Data :=
  mkData (mkTensor uint8 [[px1 255; px1 255]])
         (mkTensor uint8 [[px1 1; px1 2]]).

Definition mixed_dataset : gmap string (list Data) :=
  {[ "train" := [white_record];
     "test" := [white_record; gray_record] ]}.

Definition fixed_rand (e : nat) : TrainData.Rand :=
  TrainData.mkRand (fun i => 1 # 4) (fun k => k + e).

(** * Properties *)

(** ** Shapes after preprocessing *)

Lemma resize_image_spatial p in_h in_w ch out_h out_w :
  length (Resize.resize_image p in_h in_w ch out_h out_w) = out_h /\
  Forall (fun row => length row = out_w)
         (Resize.resize_image p in_h in_w ch out_h out_w).
Proof.
  unfold Resize.resize_image. split.
  - rewrite length_map. apply length_seq.
  - apply Forall_map, Forall_forall. intros y _. simpl.
    rewrite length_map. apply length_seq.
Qed.

Lemma resize_spatial t h w r :
  Resize.resize t (h, w) = Some r -> has_spatial h w r /\ dtype r = float32.
Proof.
  unfold Resize.resize. destruct (_ || _); [discriminate|].
  destruct (_ =? 0); [discriminate|].
  intros [= <-]. split; [|reflexivity]. apply resize_image_spatial.
Qed.

Lemma resize_is_Some t size :
  height t <> 0 -> width t <> 0 -> channels t <> 0 ->
  is_Some (Resize.resize t size).
Proof.
  intros Hh Hw Hc. unfold Resize.resize.
  destruct (Nat.eqb_spec (height t) 0); [contradiction|].
  destruct (Nat.eqb_spec (width t) 0); [contradiction|].
  destruct (Nat.eqb_spec (channels t) 0); [contradiction|].
  simpl. eauto.
Qed.

Lemma map_values_spatial f h w d p :
  has_spatial h w (mkTensor d p) ->
  has_spatial h w (mkTensor d (map_values f p)).
Proof.
  unfold has_spatial, map_values. simpl. intros [Hl Hr]. split.
  - now rewrite length_map.
  - apply Forall_map. eapply Forall_impl; [exact Hr|].
    intros row Hrow. simpl. now rewrite length_map.
Qed.

(** On a float32 tensor the conversion to float32 returns its argument. *)
Lemma convert_image_dtype_float32 t :
  dtype t = float32 -> convert_image_dtype t float32 = t.
Proof.
  intros Hd. unfold convert_image_dtype. rewrite Hd.
  destruct (decide (float32 = float32)); congruence.
Qed.

(** What [read_and_preprocess] returns, when it returns: the resized image
    as it is, and the resized mask minus one. *)
Lemma read_and_preprocess_inv data im mk :
  read_and_preprocess data = Some (im, mk) ->
  Resize.resize (image data) (128, 128) = Some im /\
  exists m, Resize.resize (segmentation_mask data) (128, 128) = Some m /\
            mk = tensor_sub m 1.
Proof.
  unfold read_and_preprocess. intros H.
  destruct (Resize.resize (image data) _) as [i|] eqn:Hi; [|discriminate].
  destruct (Resize.resize (segmentation_mask data) _) as [m|] eqn:Hm;
    [|discriminate].
  simpl in H. injection H as <- <-.
  destruct (resize_spatial _ _ _ _ Hi) as [_ Hd].
  rewrite (convert_image_dtype_float32 _ Hd). eauto.
Qed.

Lemma read_and_preprocess_is_Some data :
  height (image data) <> 0 -> width (image data) <> 0 ->
  channels (image data) <> 0 ->
  height (segmentation_mask data) <> 0 ->
  width (segmentation_mask data) <> 0 ->
  channels (segmentation_mask data) <> 0 ->
  is_Some (read_and_preprocess data).
Proof.
  intros H1 H2 H3 H4 H5 H6. unfold read_and_preprocess.
  destruct (resize_is_Some (image data) (128, 128) H1 H2 H3) as [i ->].
  destruct (resize_is_Some (segmentation_mask data) (128, 128) H4 H5 H6)
    as [m ->].
  simpl. eauto.
Qed.

(** C8.  Whatever the record, the image and the mask that
    [read_and_preprocess] returns have the same height and width, 128 by
    128: each has 128 rows and every row has 128 pixels. *)
Theorem read_and_preprocess_same_spatial data im mk :
  read_and_preprocess data = Some (im, mk) ->
  has_spatial 128 128 im /\ has_spatial 128 128 mk.
Proof.
  intros H. apply read_and_preprocess_inv in H as [Hi [m [Hm ->]]].
  split.
  - eapply resize_spatial, Hi.
  - destruct (resize_spatial _ _ _ _ Hm) as [Hs _].
    destruct m as [d p]. apply map_values_spatial, Hs.
Qed.

Lemma read_and_preprocess_same_spatial_witness :
  exists im mk, read_and_preprocess white_record = Some (im, mk) /\
                has_spatial 128 128 im /\ has_spatial 128 128 mk.
Proof.
  eexists _, _. split; [reflexivity|].
  apply (read_and_preprocess_same_spatial white_record). reflexivity.
Defined.

(** C9.  The function of the notebook and the one written to
    [pets_trainer/train.py] return the same pair on every record. *)
Theorem read_and_preprocess_train_eq data :
  Train.read_and_preprocess data = read_and_preprocess data.
Proof. reflexivity. Qed.

(** ** Values after preprocessing *)

Lemma all_values_at P t (y x c : nat) :
  all_values P t ->
  y < length (values t) ->
  x < length (nth y (values t) []) ->
  c < length (nth x (nth y (values t) []) []) ->
  P (at_ (values t) (Z.of_nat y) (Z.of_nat x) c).
Proof.
  unfold all_values, at_. intros H Hy Hx Hc. rewrite !Nat2Z.id.
  rewrite Forall_forall in H.
  assert (Hrow : In (nth y (values t) []) (values t)) by now apply nth_In.
  specialize (H _ (proj2 (list_elem_of_In _ _) Hrow)).
  rewrite Forall_forall in H.
  assert (Hpx : In (nth x (nth y (values t) []) []) (nth y (values t) []))
    by now apply nth_In.
  specialize (H _ (proj2 (list_elem_of_In _ _) Hpx)).
  rewrite Forall_forall in H.
  apply H, list_elem_of_In, nth_In, Hc.
Qed.

(** C1, at [white_record].  The image that [read_and_preprocess] returns is
    float32 and its first channel value is 255: the values are those of the
    input, not values of [0,1]. *)
Theorem read_and_preprocess_image_not_unit :
  exists im mk,
    read_and_preprocess white_record = Some (im, mk) /\
    dtype im = float32 /\
    (at_ (values im) 0 0 0 == 255)%Q /\
    ~ all_values (fun v => (0 <= v <= 1)%Q) im.
Proof.
  eexists _, _. split; [reflexivity|].
  split; [reflexivity|]. split; [reflexivity|].
  intros H.
  apply (all_values_at _ _ 0 0 0) in H; simpl; try lia.
  destruct H as [_ H]. revert H. apply Qlt_not_le. reflexivity.
Qed.

(** C2, at [white_record].  The mask that [read_and_preprocess] returns
    holds 63/128 in row 0, column 63: a value that is no integer and none
    of 0, 1, 2. *)
Theorem read_and_preprocess_mask_not_label :
  exists im mk,
    read_and_preprocess white_record = Some (im, mk) /\
    (at_ (values mk) 0 63 0 == 63 # 128)%Q /\
    ~ is_int (at_ (values mk) 0 63 0) /\
    ~ all_values (fun v => (v == 0 \/ v == 1 \/ v == 2)%Q) mk.
Proof.
  eexists _, _. split; [reflexivity|].
  assert (E : (at_ (values (tensor_sub
      (mkTensor float32
         (Resize.resize_image (values (segmentation_mask white_record))
            1 2 1 128 128)) 1)) 0 63 0 == 63 # 128)%Q) by reflexivity.
  split; [exact E|]. split.
  - intros [k Hk].
    assert (C := Qeq_trans _ _ _ (Qeq_sym _ _ E) Hk).
    unfold Qeq in C. simpl in C. lia.
  - intros H. apply (all_values_at _ _ 0 63 0) in H; simpl; try lia.
    destruct H as [H | [H | H]];
      assert (C := Qeq_trans _ _ _ (Qeq_sym _ _ E) H); discriminate C.
Qed.

(** ** [augment] *)

Lemma Qlt_bool_iff x y : Qlt_bool x y = true <-> (x < y)%Q.
Proof.
  unfold Qlt_bool. rewrite negb_true_iff, <- not_true_iff_false, Qle_bool_iff.
  split; [apply Qnot_le_lt | apply Qlt_not_le].
Qed.

(** On the grid of [n] outcomes, outcome [k] mirrors exactly when
    [2 k < n]. *)
Lemma mirrors_on_grid k n :
  0 < n ->
  Qlt_bool (inject_Z (Z.of_nat k) / inject_Z (Z.of_nat n)) AUGMENT_PROB
  = (2 * k <? n).
Proof.
  intros Hn. destruct n as [|n]; [lia|].
  apply eq_true_iff_eq. rewrite Qlt_bool_iff, Nat.ltb_lt.
  unfold Qlt, Qdiv, Qinv, Qmult, AUGMENT_PROB, inject_Z. simpl.
  rewrite Pos.mul_1_l. lia.
Qed.

Lemma filter_map_length {A B} (f : B -> bool) (g : A -> B) l :
  length (List.filter f (map g l)) = length (List.filter (fun x => f (g x)) l).
Proof.
  induction l as [|a l IH]; simpl; [reflexivity|].
  destruct (f (g a)); simpl; now rewrite IH.
Qed.

Lemma count_below a n :
  length (List.filter (fun k => 2 * k <? 2 * a) (seq 0 n)) = Nat.min a n.
Proof.
  induction n as [|n IH]; [now rewrite Nat.min_0_r|].
  rewrite seq_S, List.filter_app, length_app, IH. simpl.
  destruct (Nat.ltb_spec (n + (n + 0)) (a + (a + 0))); simpl; lia.
Qed.

Lemma flips_half m : flips (2 * m) = m.
Proof.
  unfold flips, uniform_grid. rewrite filter_map_length.
  destruct m as [|m]; [reflexivity|].
  rewrite (List.filter_ext_in _ (fun k => 2 * k <? 2 * S m)).
  - rewrite count_below. lia.
  - intros k _. apply mirrors_on_grid. lia.
Qed.

(** On the grid of [n] outcomes, outcome [k] is above one half exactly
    when [n < 2 k]. *)
Lemma above_half_on_grid k n :
  0 < n ->
  Qlt_bool (5 # 10) (inject_Z (Z.of_nat k) / inject_Z (Z.of_nat n))
  = (n <? 2 * k).
Proof.
  intros Hn. destruct n as [|n]; [lia|].
  apply eq_true_iff_eq. rewrite Qlt_bool_iff, Nat.ltb_lt.
  unfold Qlt, Qdiv, Qinv, Qmult, inject_Z. simpl.
  rewrite Pos.mul_1_l. lia.
Qed.

Lemma count_above a n :
  length (List.filter (fun k => 2 * a <? 2 * k) (seq 0 n)) = n - S a.
Proof.
  induction n as [|n IH]; [reflexivity|].
  rewrite seq_S, List.filter_app, length_app, IH. simpl.
  destruct (Nat.ltb_spec (a + (a + 0)) (n + (n + 0))); simpl; lia.
Qed.

(** The function of [train.py] mirrors on the draws above one half. *)
Lemma train_augment_mirrors_above_half (u : Q) (img mask : Tensor) :
  ((1 # 2 < u)%Q ->
   Train.augment u img mask = (flip_left_right img, flip_left_right mask)) /\
  (~ (1 # 2 < u)%Q -> Train.augment u img mask = (img, mask)).
Proof.
  unfold Train.augment. split; intros H.
  - assert (E : Qlt_bool (5 # 10) u = true).
    { apply Qlt_bool_iff. eapply Qle_lt_trans; [|exact H]. discriminate. }
    now rewrite E.
  - destruct (Qlt_bool (5 # 10) u) eqn:E; [|reflexivity].
    apply Qlt_bool_iff in E. exfalso. apply H.
    eapply Qle_lt_trans; [|exact E]. discriminate.
Qed.

Lemma mirrored_augment u :
  mirrored (augment u probe probe) = Qlt_bool u AUGMENT_PROB.
Proof. unfold augment. now destruct (Qlt_bool u AUGMENT_PROB). Qed.

Lemma mirrored_train_augment u :
  mirrored (Train.augment u probe probe) = Qlt_bool (5 # 10) u.
Proof. unfold Train.augment. now destruct (Qlt_bool (5 # 10) u). Qed.

Lemma flips_of_augment n : flips_of augment n = flips n.
Proof.
  unfold flips_of, flips. f_equal. apply List.filter_ext.
  intros u. apply mirrored_augment.
Qed.

(** Of [2 m] equally likely draws the function of [train.py] mirrors on
    [m - 1]: the draws above one half, which the draw one half itself is
    not. *)
Lemma train_flips_half m : flips_of Train.augment (2 * m) = m - 1.
Proof.
  unfold flips_of, uniform_grid. rewrite filter_map_length.
  destruct m as [|m]; [reflexivity|].
  rewrite (List.filter_ext_in _ (fun k => 2 * S m <? 2 * k)).
  - rewrite count_above. lia.
  - intros k _. rewrite mirrored_train_augment.
    apply above_half_on_grid. lia.
Qed.

(** C3, amended.  Whatever the draw [u], [augment] returns the image and
    the mask both mirrored or both as they are, in the notebook and in
    [train.py].  The notebook mirrors exactly when [u < AUGMENT_PROB], which
    is one half: of the [2 m] equally likely outcomes of a uniform draw at
    resolution [1/(2 m)] exactly [m] mirror, a probability of
    [AUGMENT_PROB].  [train.py] mirrors exactly when [u > 0.5]: of the
    [2 m] outcomes [m - 1] mirror, a probability of
    [AUGMENT_PROB - 1/(2 m)] (a float32 draw has [2 m = 2^23]
    outcomes). *)
Theorem augment_mirrors_both_or_none (u : Q) (img mask : Tensor) :
  (augment u img mask = (flip_left_right img, flip_left_right mask) \/
   augment u img mask = (img, mask)) /\
  ((u < AUGMENT_PROB)%Q ->
   augment u img mask = (flip_left_right img, flip_left_right mask)) /\
  (~ (u < AUGMENT_PROB)%Q -> augment u img mask = (img, mask)) /\
  (Train.augment u img mask = (flip_left_right img, flip_left_right mask) \/
   Train.augment u img mask = (img, mask)) /\
  ((1 # 2 < u)%Q ->
   Train.augment u img mask = (flip_left_right img, flip_left_right mask)) /\
  (~ (1 # 2 < u)%Q -> Train.augment u img mask = (img, mask)) /\
  (AUGMENT_PROB == 1 # 2)%Q /\
  (forall m, flips (2 * m) = m /\ flips_of augment (2 * m) = m) /\
  (forall m, 0 < m ->
     (inject_Z (Z.of_nat (flips_of augment (2 * m)))
      / inject_Z (Z.of_nat (2 * m))
      == AUGMENT_PROB)%Q) /\
  (forall m, flips_of Train.augment (2 * m) = m - 1) /\
  (forall m, 0 < m ->
     (inject_Z (Z.of_nat (flips_of Train.augment (2 * m)))
      / inject_Z (Z.of_nat (2 * m))
      == AUGMENT_PROB - 1 / inject_Z (Z.of_nat (2 * m)))%Q).
Proof.
  split; [unfold augment; destruct (Qlt_bool u AUGMENT_PROB); auto|].
  split.
  { intros H. apply Qlt_bool_iff in H. unfold augment. now rewrite H. }
  split.
  { intros H. unfold augment.
    destruct (Qlt_bool u AUGMENT_PROB) eqn:E; [|reflexivity].
    apply Qlt_bool_iff in E. contradiction. }
  split; [unfold Train.augment; destruct (Qlt_bool (5 # 10) u); auto|].
  split; [apply train_augment_mirrors_above_half|].
  split; [apply train_augment_mirrors_above_half|].
  split; [reflexivity|].
  split.
  { intros m. rewrite flips_of_augment. split; apply flips_half. }
  split.
  { intros m Hm. rewrite flips_of_augment, flips_half.
    unfold Qeq, Qdiv, Qinv, Qmult, AUGMENT_PROB, inject_Z.
    destruct m as [|m]; [lia|]. simpl.
    rewrite Pos.mul_1_l. lia. }
  split; [apply train_flips_half|].
  intros m Hm. rewrite train_flips_half.
  destruct m as [|m]; [lia|].
  replace (S m - 1) with m by lia.
  replace (Z.of_nat (2 * S m)) with (2 * Z.of_nat m + 2)%Z by lia.
  assert (H0 : (inject_Z 0 <= inject_Z (Z.of_nat m))%Q)
    by (rewrite <- Zle_Qle; lia).
  rewrite inject_Z_plus, inject_Z_mult. unfold AUGMENT_PROB.
  change (inject_Z 0) with 0%Q in H0. change (inject_Z 2) with 2%Q.
  field. intros E. lra.
Qed.

(** On eight equally likely draws the function of [train.py] mirrors on
    three, the notebook's on four: its probability of mirroring is not
    [AUGMENT_PROB]. *)
Lemma train_augment_not_half :
  length (uniform_grid 8) = 8 /\
  flips_of augment 8 = 4 /\
  flips_of Train.augment 8 = 3 /\
  ~ (inject_Z (Z.of_nat (flips_of Train.augment 8)) / inject_Z (Z.of_nat 8)
     == AUGMENT_PROB)%Q /\
  Train.augment (4 # 8) probe probe = (probe, probe).
Proof. repeat split. vm_compute. discriminate. Qed.

(** ** [create_mask] *)











Example create_mask_example :
  create_mask [[[[0; 2; 1]%Q; [3; 3; 1]%Q]]; [[[5; 0; 0]%Q; [0; 0; 9]%Q]]]
  = Some (mkTensor int64 [[[1%Q]; [0%Q]]]).
Proof. reflexivity. Qed.

(** ** The encoder *)

(** The composed model at the shape of the notebook and a positive number
    of output channels, computed once: its nodes in order, the operations
    of the decoder, and the flags of the encoder. *)
Lemma build_unet_nodes init c :
  0 < c ->
  exists m,
    run (Train.build_unet init INPUT_SHAPE c) = Some m /\
    compiled m = None /\
    inputs m = mkKT (128, 128, 3) "input_image" 0 /\
    outputs m = [mkKT (128, 128, c) "conv2d_transpose_4" 0] /\
    map node_name (firstn 2 (nodes m)) =
      ["input_image"; "pretrained_mobilenet"] /\
    option_map (fun n => (input_shapes n, output_shapes n))
      (get_layer m "pretrained_mobilenet") =
      Some ([(128, 128, 3)],
            [(64, 64, 96); (32, 32, 144); (16, 16, 192); (8, 8, 576);
             (4, 4, 320)]) /\
    map describe (skipn 2 (nodes m)) =
    [("upsample_4x4_to_8x8", [("pretrained_mobilenet", 4)],
      [(4, 4, 320)], [(8, 8, 512)],
      [Conv2DTranspose 512 3 2 same; BatchNormalization; ReLU None]);
     ("expand_0", [("upsample_4x4_to_8x8", 0); ("pretrained_mobilenet", 3)],
      [(8, 8, 512); (8, 8, 576)], [(8, 8, 1088)], [Concatenate]);
     ("upsample_8x8_to_16x16", [("expand_0", 0)],
      [(8, 8, 1088)], [(16, 16, 256)],
      [Conv2DTranspose 256 3 2 same; BatchNormalization; ReLU None]);
     ("expand_1",
      [("upsample_8x8_to_16x16", 0); ("pretrained_mobilenet", 2)],
      [(16, 16, 256); (16, 16, 192)], [(16, 16, 448)], [Concatenate]);
     ("upsample_16x16_to_32x32", [("expand_1", 0)],
      [(16, 16, 448)], [(32, 32, 128)],
      [Conv2DTranspose 128 3 2 same; BatchNormalization; ReLU None]);
     ("expand_2",
      [("upsample_16x16_to_32x32", 0); ("pretrained_mobilenet", 1)],
      [(32, 32, 128); (32, 32, 144)], [(32, 32, 272)], [Concatenate]);
     ("upsample_32x32_to_64x64", [("expand_2", 0)],
      [(32, 32, 272)], [(64, 64, 64)],
      [Conv2DTranspose 64 3 2 same; BatchNormalization; ReLU None]);
     ("expand_3",
      [("upsample_32x32_to_64x64", 0); ("pretrained_mobilenet", 0)],
      [(64, 64, 64); (64, 64, 96)], [(64, 64, 160)], [Concatenate]);
     ("conv2d_transpose_4", [("expand_3", 0)],
      [(64, 64, 160)], [(128, 128, c)],
      [Conv2DTranspose c 3 2 same])] /\
    forallb (fun l => negb (trainable l)) (encoder_layers m) = true /\
    length (encoder_layers m) = 150 /\
    nth 1 (decoder_layers (train_step grow 0 m)) (mkLayer "" Add false []) =
    mkLayer "conv2d_transpose" (Conv2DTranspose 512 3 2 same) true
      (0%Q :: init "conv2d_transpose") /\
    nth 1 (decoder_layers m) (mkLayer "" Add false []) =
    mkLayer "conv2d_transpose" (Conv2DTranspose 512 3 2 same) true
      (init "conv2d_transpose").
Proof.
  intros Hc. destruct c as [|c]; [lia|]. clear Hc.
  eexists. split; [vm_compute; reflexivity|].
  repeat split; vm_compute; reflexivity.
Qed.


(** ** The decoder *)

Lemma upsample_inv init filters size name g u g' :
  Train.upsample init filters size name g = Some (u, g') ->
  seq_name u = name /\
  map op (seq_layers u) =
    [Conv2DTranspose filters size 2 same; BatchNormalization; ReLU None].
Proof.
  unfold Train.upsample, new_layer.
  destruct (valid_args (Conv2DTranspose filters size 2 same));
    [|discriminate].
  unfold unique_object_name, new_sequential.
  cbn. intros [= <- _]. split; reflexivity.
Qed.

Lemma upsample_doubles ls filters size (h w ch : nat) :
  map op ls =
    [Conv2DTranspose filters size 2 same; BatchNormalization; ReLU None] ->
  sequential_shape ls (h, w, ch) = Some (h * 2, w * 2, filters).
Proof.
  destruct ls as [|a [|b [|c [|]]]]; try discriminate.
  simpl. intros [= Ha Hb Hc]. rewrite Ha. simpl. rewrite Hb. simpl.
  rewrite Hc. reflexivity.
Qed.

(** C5.  The model that [build_unet] composes for the input [128,128,3]
    and three output channels: after the input and the encoder come exactly
    four upsampling blocks, each a transposed convolution of stride 2 and
    padding "same", a batch normalization and a ReLU, of 512, 256, 128 and
    64 filters; each doubles the height and width of what it receives
    (4 to 8, 8 to 16, 16 to 32, 32 to 64) and its result is concatenated
    with the encoder output of the same size, the outputs taken in reverse
    order (positions 3, 2, 1, 0: 8x8, 16x16, 32x32, 64x64); a last transposed
    convolution of three filters gives the output, of shape [128,128,3].
    Whatever its input, a block built by [upsample] doubles height and
    width. *)
Theorem build_unet_decoder (init : string -> list Q) :
  (exists m,
     run (Train.build_unet init INPUT_SHAPE OUTPUT_CHANNELS) = Some m /\
     map describe (skipn 2 (nodes m)) =
     [("upsample_4x4_to_8x8", [("pretrained_mobilenet", 4)],
       [(4, 4, 320)], [(8, 8, 512)],
       [Conv2DTranspose 512 3 2 same; BatchNormalization; ReLU None]);
      ("expand_0", [("upsample_4x4_to_8x8", 0); ("pretrained_mobilenet", 3)],
       [(8, 8, 512); (8, 8, 576)], [(8, 8, 1088)], [Concatenate]);
      ("upsample_8x8_to_16x16", [("expand_0", 0)],
       [(8, 8, 1088)], [(16, 16, 256)],
       [Conv2DTranspose 256 3 2 same; BatchNormalization; ReLU None]);
      ("expand_1",
       [("upsample_8x8_to_16x16", 0); ("pretrained_mobilenet", 2)],
       [(16, 16, 256); (16, 16, 192)], [(16, 16, 448)], [Concatenate]);
      ("upsample_16x16_to_32x32", [("expand_1", 0)],
       [(16, 16, 448)], [(32, 32, 128)],
       [Conv2DTranspose 128 3 2 same; BatchNormalization; ReLU None]);
      ("expand_2",
       [("upsample_16x16_to_32x32", 0); ("pretrained_mobilenet", 1)],
       [(32, 32, 128); (32, 32, 144)], [(32, 32, 272)], [Concatenate]);
      ("upsample_32x32_to_64x64", [("expand_2", 0)],
       [(32, 32, 272)], [(64, 64, 64)],
       [Conv2DTranspose 64 3 2 same; BatchNormalization; ReLU None]);
      ("expand_3",
       [("upsample_32x32_to_64x64", 0); ("pretrained_mobilenet", 0)],
       [(64, 64, 64); (64, 64, 96)], [(64, 64, 160)], [Concatenate]);
      ("conv2d_transpose_4", [("expand_3", 0)],
       [(64, 64, 160)], [(128, 128, 3)],
       [Conv2DTranspose OUTPUT_CHANNELS 3 2 same])] /\
     map node_name (firstn 2 (nodes m)) =
       ["input_image"; "pretrained_mobilenet"] /\
     kt_shape (inputs m) = (128, 128, 3) /\
     map kt_shape (outputs m) = [(128, 128, 3)]) /\
  (forall filters size name g u g' h w ch,
     Train.upsample init filters size name g = Some (u, g') ->
     map op (seq_layers u) =
       [Conv2DTranspose filters size 2 same; BatchNormalization; ReLU None] /\
     sequential_shape (seq_layers u) (h, w, ch)
       = Some (h * 2, w * 2, filters)).
Proof.
  split.
  - destruct (build_unet_nodes init OUTPUT_CHANNELS ltac:(vm_compute; lia))
      as [m (Hm & _ & Hi & Ho & Hf & _ & Hd & _)].
    exists m. rewrite Hi, Ho. repeat split; assumption.
  - intros filters size name g u g' h w ch Hu.
    apply upsample_inv in Hu as [_ Hops].
    split; [exact Hops|]. exact (upsample_doubles _ _ _ h w ch Hops).
Qed.

(** ** The encoder stays frozen while the model is composed *)

Lemma hoare_bind {A B} (P : Graph -> Prop) (c : M A) (f : A -> M B)
    (Q : A -> Graph -> Prop) (R : B -> Graph -> Prop) :
  hoare P c Q -> (forall a, hoare (Q a) (f a) R) -> hoare P (c ≫= f) R.
Proof.
  intros Hc Hf g b g' HP. unfold mbind, M_bind.
  destruct (c g) as [[a g1]|] eqn:E; [|discriminate].
  intros H. exact (Hf a g1 b g' (Hc g a g1 HP E) H).
Qed.

Lemma hoare_ret {A} (P : Graph -> Prop) (x : A) :
  hoare P (mret x) (fun _ g => P g).
Proof. intros g a g' HP [= _ <-]. exact HP. Qed.

Lemma hoare_lift {A} (P : Graph -> Prop) (o : option A) :
  hoare P (lift o) (fun _ g => P g).
Proof. intros g a g' HP. unfold lift. destruct o; [|discriminate].
  intros [= _ <-]. exact HP. Qed.

Lemma hoare_weaken {A} (P : Graph -> Prop) (c : M A)
    (Q Q' : A -> Graph -> Prop) :
  hoare P c Q -> (forall a g, Q a g -> Q' a g) -> hoare P c Q'.
Proof. intros H HQ g a g' HP E. apply HQ. exact (H g a g' HP E). Qed.

Lemma not_p_name s : not_p s -> s <> "pretrained_mobilenet".
Proof. intros H ->. apply H. reflexivity. Qed.

Lemma not_p_append a b : a <> "" -> not_p a -> not_p (a +:+ b).
Proof. destruct a; [congruence|]. intros _ H. exact H. Qed.

Lemma to_snake_case_not_p o : not_p (to_snake_case o) /\ to_snake_case o <> "".
Proof. destruct o; split; discriminate. Qed.

Lemma unique_object_name_not_p prefix zero_based :
  not_p prefix -> prefix <> "" ->
  hoare encoder_frozen (unique_object_name prefix zero_based)
    (fun name g => encoder_frozen g /\ not_p name).
Proof.
  intros Hp Hne g name g' HI. unfold unique_object_name.
  intros [= <- <-]. split; [exact HI|].
  destruct zero_based; [destruct (_ =? 0)|]; auto using not_p_append.
Qed.

Section Invariant.

Variable init : string -> list Q.

(** A layer constructor adds no node; the name it gives is the one asked
    for, or a generated one, which does not start with a "p". *)
Lemma new_layer_spec name o :
  match name with Some n => not_p n | None => True end ->
  hoare encoder_frozen (new_layer init name o)
    (fun l g => encoder_frozen g /\ not_p (layer_name l) /\ op l = o).
Proof.
  intros Hn. unfold new_layer.
  destruct (valid_args o); [|intros g a g' _; discriminate].
  eapply hoare_bind with
    (Q := fun nm g => encoder_frozen g /\ not_p nm).
  - destruct name as [n|].
    + intros g a g' HI [= <- <-]. auto.
    + apply unique_object_name_not_p; apply to_snake_case_not_p.
  - intros nm g l g' [HI Hnm] [= <- <-]. simpl. auto.
Qed.

Lemma add_node_spec n :
  (node_name n = "pretrained_mobilenet" -> Forall frozen (node_layers n)) ->
  hoare encoder_frozen (add_node n) (fun _ g => encoder_frozen g).
Proof.
  intros Hn g a g' HI [= _ <-]. unfold encoder_frozen in *. simpl.
  apply Forall_app. split; [exact HI|]. constructor; [exact Hn|constructor].
Qed.

Lemma call_spec l xs :
  not_p (layer_name l) ->
  hoare encoder_frozen (call l xs) (fun _ g => encoder_frozen g).
Proof.
  intros Hl. unfold call.
  eapply hoare_bind; [apply hoare_lift|]. intros s. simpl.
  eapply hoare_bind with (Q := fun _ g => encoder_frozen g);
    [|intros []; apply hoare_ret].
  apply add_node_spec. simpl. intros E. now apply not_p_name in Hl.
Qed.

Lemma layer_spec name o xs :
  match name with Some n => not_p n | None => True end ->
  hoare encoder_frozen (layer init name o xs) (fun _ g => encoder_frozen g).
Proof.
  intros Hn. unfold layer.
  eapply hoare_bind; [apply new_layer_spec, Hn|].
  intros l g a g' [HI [Hl _]]. now apply call_spec.
Qed.

Lemma call_sequential_spec u x :
  not_p (seq_name u) ->
  hoare encoder_frozen (call_sequential u x) (fun _ g => encoder_frozen g).
Proof.
  intros Hu. unfold call_sequential.
  eapply hoare_bind; [apply hoare_lift|]. intros s. simpl.
  eapply hoare_bind with (Q := fun _ g => encoder_frozen g);
    [|intros []; apply hoare_ret].
  apply add_node_spec. simpl. intros E. now apply not_p_name in Hu.
Qed.

Lemma call_model_spec m x :
  Forall frozen (model_layers m) ->
  hoare encoder_frozen (call_model m x) (fun _ g => encoder_frozen g).
Proof.
  intros Hm. unfold call_model. destruct (bool_decide _).
  - eapply hoare_bind with (Q := fun _ g => encoder_frozen g);
      [|intros []; apply hoare_ret].
    apply add_node_spec. simpl. intros _. exact Hm.
  - intros g a g' _. discriminate.
Qed.

Lemma ancestors_incl newest needed n :
  In n (ancestors newest needed) -> In n newest.
Proof.
  revert needed. induction newest as [|a l IH]; intros needed; simpl; [tauto|].
  destruct (decide _).
  - rewrite in_app_iff. simpl. intros [H|[H|[]]]; eauto.
  - eauto.
Qed.

(** A model holds nodes of the graph it is made in. *)
Lemma new_model_spec ins outs name :
  hoare encoder_frozen (new_model ins outs name)
    (fun m g => encoder_frozen g /\
                forall n, In n (nodes m) -> In n (created g)).
Proof.
  unfold new_model.
  eapply hoare_bind with (Q := fun _ g => encoder_frozen g).
  - destruct name as [n|].
    + apply hoare_ret.
    + intros g a g' HI. unfold unique_object_name. now intros [= _ <-].
  - intros nm g m g' HI. unfold mbind, M_bind, get_created. simpl.
    intros [= <- <-]. split; [exact HI|]. simpl. intros n Hn.
    apply ancestors_incl in Hn. now apply in_rev.
Qed.

Lemma set_trainable_frozen m :
  Forall frozen (model_layers (set_trainable false m)).
Proof.
  unfold model_layers, set_trainable. simpl.
  induction (nodes m) as [|n ns IH]; simpl; [constructor|].
  apply Forall_app. split; [|exact IH].
  apply Forall_map, Forall_forall. intros l _. reflexivity.
Qed.

Lemma inverted_res_block_spec x expansion stride filters block_id :
  hoare encoder_frozen
    (MobileNetV2.inverted_res_block init x expansion stride filters block_id)
    (fun _ g => encoder_frozen g).
Proof.
  unfold MobileNetV2.inverted_res_block.
  assert (Hp : forall s,
            not_p ((if block_id =? 0 then "expanded_conv_"
                    else "block_" +:+ pretty block_id +:+ "_") +:+ s)).
  { intros s. destruct (block_id =? 0); discriminate. }
  eapply hoare_bind with (Q := fun _ g => encoder_frozen g).
  { destruct (block_id =? 0); [apply hoare_ret|].
    eapply hoare_bind; [apply layer_spec; discriminate|]. intros ?.
    eapply hoare_bind; [apply layer_spec; discriminate|]. intros ?.
    apply layer_spec. discriminate. }
  intros x1.
  eapply hoare_bind with (Q := fun _ g => encoder_frozen g).
  { destruct (stride =? 2); [|apply hoare_ret].
    destruct (MobileNetV2.correct_pad x1 3) as [[t b] [l r]].
    apply layer_spec, Hp. }
  intros x2.
  eapply hoare_bind; [apply layer_spec, Hp|]. intros ?.
  eapply hoare_bind; [apply layer_spec, Hp|]. intros ?.
  eapply hoare_bind; [apply layer_spec, Hp|]. intros ?.
  eapply hoare_bind; [apply layer_spec, Hp|]. intros ?.
  eapply hoare_bind; [apply layer_spec, Hp|]. intros ?.
  destruct (_ && _); [apply layer_spec, Hp|apply hoare_ret].
Qed.

Lemma inverted_res_blocks_spec bs : forall x,
  hoare encoder_frozen (MobileNetV2.inverted_res_blocks init x bs)
    (fun _ g => encoder_frozen g).
Proof.
  induction bs as [|[[f s] i] bs IH]; intros x; simpl; [apply hoare_ret|].
  eapply hoare_bind; [apply inverted_res_block_spec|]. exact IH.
Qed.

Lemma MobileNetV2_spec input_shape :
  hoare encoder_frozen (MobileNetV2.MobileNetV2 init input_shape)
    (fun m g => encoder_frozen g /\
                forall n, In n (nodes m) -> In n (created g)).
Proof.
  unfold MobileNetV2.MobileNetV2.
  eapply hoare_bind; [apply hoare_lift|]. intros [[rows cols] ch].
  cbv beta iota zeta.
  eapply hoare_bind; [apply layer_spec; exact I|]. intros ?.
  eapply hoare_bind; [apply layer_spec; discriminate|]. intros ?.
  eapply hoare_bind; [apply layer_spec; discriminate|]. intros ?.
  eapply hoare_bind; [apply layer_spec; discriminate|]. intros ?.
  eapply hoare_bind; [apply inverted_res_block_spec|]. intros ?.
  eapply hoare_bind; [apply inverted_res_blocks_spec|]. intros ?.
  eapply hoare_bind; [apply layer_spec; discriminate|]. intros ?.
  eapply hoare_bind; [apply layer_spec; discriminate|]. intros ?.
  eapply hoare_bind; [apply layer_spec; discriminate|]. intros ?.
  apply new_model_spec.
Qed.

Lemma upsample_spec filters size name :
  not_p name ->
  hoare encoder_frozen (Train.upsample init filters size name)
    (fun u g => encoder_frozen g /\ not_p (seq_name u)).
Proof.
  intros Hn. unfold Train.upsample.
  eapply hoare_bind with (Q := fun _ g => encoder_frozen g).
  { intros g a g' HI E. exact (proj1 (new_layer_spec None _ I g a g' HI E)). }
  intros c.
  eapply hoare_bind with (Q := fun _ g => encoder_frozen g).
  { intros g a g' HI E. exact (proj1 (new_layer_spec None _ I g a g' HI E)). }
  intros b.
  eapply hoare_bind with (Q := fun _ g => encoder_frozen g).
  { intros g a g' HI E. exact (proj1 (new_layer_spec None _ I g a g' HI E)). }
  intros r g u g' HI [= <- <-]. simpl. auto.
Qed.

Lemma upsampling_spec pairs : forall idx x,
  Forall (fun p => not_p (seq_name (fst p))) pairs ->
  hoare encoder_frozen (Train.upsampling init idx x pairs)
    (fun _ g => encoder_frozen g).
Proof.
  induction pairs as [|[up skip] pairs IH]; intros idx x Hp; simpl;
    [apply hoare_ret|].
  inversion Hp as [|? ? Hup Hrest]; subst. simpl in Hup.
  eapply hoare_bind; [apply call_sequential_spec, Hup|]. intros ?.
  eapply hoare_bind; [apply layer_spec; discriminate|]. intros ?.
  now apply IH.
Qed.

Lemma zip_not_p (ups : list Sequential) (skips : list KerasTensor) :
  Forall (fun u => not_p (seq_name u)) ups ->
  Forall (fun p => not_p (seq_name (fst p))) (zip ups skips).
Proof.
  intros H. revert skips. induction H as [|u ups Hu _ IH]; intros skips;
    [constructor|].
  destruct skips as [|s skips]; [constructor|].
  simpl. constructor; [exact Hu|apply IH].
Qed.

(** Every node of the composed model that bears the name of the encoder
    holds frozen layers only, whatever the input shape. *)
Lemma build_unet_spec input_shape output_channels :
  hoare encoder_frozen (Train.build_unet init input_shape output_channels)
    (fun m g => forall n, In n (nodes m) ->
                  node_name n = "pretrained_mobilenet" ->
                  Forall frozen (node_layers n)).
Proof.
  unfold Train.build_unet.
  eapply hoare_bind; [apply MobileNetV2_spec|]. intros base. simpl.
  eapply hoare_bind with (Q := fun _ g => encoder_frozen g).
  { intros g a g' [HI _] E. exact (hoare_lift encoder_frozen _ g a g' HI E). }
  intros outs.
  eapply hoare_bind with (Q := fun _ g => encoder_frozen g).
  { eapply hoare_weaken; [apply new_model_spec|]. now intros a g [H _]. }
  intros ds.
  eapply hoare_bind; [apply upsample_spec; discriminate|]. intros u1. simpl.
  eapply hoare_bind with
    (Q := fun u g => encoder_frozen g /\ not_p (seq_name u1) /\
                     not_p (seq_name u)).
  { intros g a g' [HI H1] E.
    destruct (upsample_spec 256 3 "upsample_8x8_to_16x16" ltac:(discriminate) g a g' HI E). auto. }
  intros u2. simpl.
  eapply hoare_bind with
    (Q := fun u g => encoder_frozen g /\ not_p (seq_name u1) /\
                     not_p (seq_name u2) /\ not_p (seq_name u)).
  { intros g a g' [HI [H1 H2]] E.
    destruct (upsample_spec 128 3 "upsample_16x16_to_32x32" ltac:(discriminate) g a g' HI E). auto. }
  intros u3. simpl.
  eapply hoare_bind with
    (Q := fun u g => encoder_frozen g /\
                     Forall (fun u => not_p (seq_name u)) [u1; u2; u3; u]).
  { intros g a g' [HI [H1 [H2 H3]]] E.
    destruct (upsample_spec 64 3 "upsample_32x32_to_64x64" ltac:(discriminate) g a g' HI E).
    split; [assumption|]. repeat constructor; assumption. }
  intros u4. simpl.
  eapply hoare_bind with
    (Q := fun _ g => encoder_frozen g /\
                     Forall (fun u => not_p (seq_name u)) [u1; u2; u3; u4]).
  { intros g a g' [HI Hu] E. split; [|exact Hu].
    exact (layer_spec (Some "input_image") _ _ ltac:(discriminate)
             g a g' HI E). }
  intros inp.
  eapply hoare_bind with
    (Q := fun _ g => encoder_frozen g /\
                     Forall (fun u => not_p (seq_name u)) [u1; u2; u3; u4]).
  { intros g a g' [HI Hu] E. split; [|exact Hu].
    exact (call_model_spec _ _ (set_trainable_frozen ds) g a g' HI E). }
  intros skips.
  eapply hoare_bind with
    (Q := fun _ g => encoder_frozen g /\
                     Forall (fun u => not_p (seq_name u)) [u1; u2; u3; u4]).
  { intros g a g' H E.
    exact (hoare_lift (fun g => encoder_frozen g /\
             Forall (fun u => not_p (seq_name u)) [u1; u2; u3; u4])
             _ g a g' H E). }
  intros x.
  eapply hoare_bind with (Q := fun _ g => encoder_frozen g).
  { intros g a g' [HI Hu] E.
    exact (upsampling_spec _ _ _ (zip_not_p _ _ Hu) g a g' HI E). }
  intros x'.
  eapply hoare_bind; [apply layer_spec; exact I|]. intros y.
  eapply hoare_weaken; [apply new_model_spec|].
  intros m g [HI Hin] n Hn Hname.
  unfold encoder_frozen in HI. rewrite Forall_forall in HI.
  apply (HI n); [|exact Hname]. apply list_elem_of_In, Hin, Hn.
Qed.

Lemma build_unet_encoder_frozen input_shape output_channels m :
  run (Train.build_unet init input_shape output_channels) = Some m ->
  Forall frozen (encoder_layers m).
Proof.
  unfold run. intros H.
  destruct (Train.build_unet init input_shape output_channels empty_graph)
    as [[m0 g]|] eqn:E; [|discriminate].
  simpl in H. injection H as ->.
  assert (H0 : encoder_frozen empty_graph) by constructor.
  pose proof (build_unet_spec _ _ _ _ _ H0 E) as Hm.
  unfold encoder_layers, get_layer.
  destruct (find _ (nodes m)) as [n|] eqn:F; simpl; [|constructor].
  apply find_some in F as [Hin Hname].
  apply Hm; [exact Hin|]. now apply String.eqb_eq.
Qed.

End Invariant.

(** ** Training leaves the encoder as it is *)

Section Frame.

Variable update : nat -> Model -> Layer -> list Q.

Lemma train_layer_frozen k m l :
  frozen l -> train_layer update k m l = l.
Proof. unfold frozen, train_layer. now intros ->. Qed.

Lemma train_layers_frozen k m ls :
  Forall frozen ls -> map (train_layer update k m) ls = ls.
Proof.
  induction 1 as [|l ls Hl _ IH]; simpl; [reflexivity|].
  now rewrite IH, train_layer_frozen.
Qed.

Lemma find_train_node k m name ns :
  find (fun n => String.eqb (node_name n) name)
    (map (train_node update k m) ns)
  = option_map (train_node update k m)
      (find (fun n => String.eqb (node_name n) name) ns).
Proof.
  induction ns as [|n ns IH]; simpl; [reflexivity|].
  destruct (String.eqb (node_name n) name); [reflexivity|exact IH].
Qed.

Lemma encoder_layers_train_step k m :
  Forall frozen (encoder_layers m) ->
  encoder_layers (train_step update k m) = encoder_layers m.
Proof.
  unfold encoder_layers, get_layer, train_step. simpl.
  rewrite find_train_node.
  destruct (find _ (nodes m)) as [n|]; simpl; [|reflexivity].
  apply train_layers_frozen.
Qed.

Lemma encoder_layers_train_steps n : forall k m,
  Forall frozen (encoder_layers m) ->
  encoder_layers (train_steps update k n m) = encoder_layers m.
Proof.
  induction n as [|n IH]; intros k m H; simpl; [reflexivity|].
  rewrite IH; rewrite encoder_layers_train_step; auto.
Qed.

(** A model all of whose layers are frozen comes out of training steps
    as it went in. *)
Lemma train_nodes_all_frozen k m ns :
  Forall frozen (flat_map node_layers ns) ->
  map (train_node update k m) ns = ns.
Proof.
  induction ns as [|n ns IH]; simpl; [reflexivity|].
  intros H. apply Forall_app in H as [Hn Hns]. rewrite (IH Hns). f_equal.
  destruct n as [nn inb ish osh ls]. unfold train_node. simpl in *.
  f_equal. induction Hn as [|l ls Hl _ IHl]; simpl; [reflexivity|].
  rewrite IHl. f_equal. unfold frozen in Hl. unfold train_layer.
  now rewrite Hl.
Qed.

Lemma train_step_all_frozen k m :
  Forall frozen (model_layers m) -> train_step update k m = m.
Proof.
  unfold model_layers, train_step. intros H.
  rewrite train_nodes_all_frozen by exact H. now destruct m.
Qed.

Lemma train_steps_all_frozen n : forall k m,
  Forall frozen (model_layers m) -> train_steps update k n m = m.
Proof.
  induction n as [|n IH]; intros k m H; simpl; [reflexivity|].
  rewrite train_step_all_frozen by exact H. now apply IH.
Qed.

(** Whatever the optimizer, the epochs and the steps: fitting a model
    whose encoder is frozen returns a model with the same encoder. *)
Lemma fit_encoder_layers m epochs steps_per_epoch validation_steps m' :
  Forall frozen (encoder_layers m) ->
  fit update m epochs steps_per_epoch validation_steps = Some m' ->
  encoder_layers m' = encoder_layers m.
Proof.
  intros H. unfold fit. destruct (compiled m); [|discriminate].
  destruct (_ && _); [discriminate|]. intros [= <-].
  now apply encoder_layers_train_steps.
Qed.

End Frame.

Lemma forallb_frozen ls :
  forallb (fun l => negb (trainable l)) ls = true -> Forall frozen ls.
Proof.
  rewrite forallb_forall, Forall_forall. intros H l Hl.
  apply list_elem_of_In, H in Hl. unfold frozen.
  now destruct (trainable l).
Qed.

(** The encoder of the notebook, computed once: it is built, has 150
    layers, and none of them is trainable. *)
Lemma down_stack_layers init :
  exists d,
    run (down_stack init) = Some d /\
    length (model_layers d) = 150 /\
    forallb (fun l => negb (trainable l)) (model_layers d) = true.
Proof.
  eexists. split; [vm_compute; reflexivity|].
  split; vm_compute; reflexivity.
Qed.

(** C4.  The encoder [down_stack] of the notebook has 150 layers, every
    one with [trainable = False], and training steps, whatever they do to
    trainable variables, return it as it is.  In every model that
    [build_unet] composes, whatever the input shape and the number of
    output channels, every layer of the encoder has [trainable = False];
    whatever the training steps do to trainable variables, and for any
    number of epochs and steps, the model that [fit] returns has the layers
    of the encoder, weights included, as they were built.  At the input
    shape of the notebook this encoder has 150 layers, and the weights of
    the decoder can change: one step of an optimizer that changes what it
    is given changes them and leaves the encoder alone. *)
Theorem fit_leaves_encoder (init : string -> list Q)
    (update : nat -> Model -> Layer -> list Q) :
  (exists d,
     run (down_stack init) = Some d /\
     length (model_layers d) = 150 /\
     Forall frozen (model_layers d) /\
     forall k n, train_steps update k n d = d) /\
  (forall input_shape output_channels m,
     run (Train.build_unet init input_shape output_channels) = Some m ->
     Forall frozen (encoder_layers m) /\
     forall optimizer loss metrics epochs steps_per_epoch validation_steps m',
       fit update (compile m optimizer loss metrics)
         epochs steps_per_epoch validation_steps = Some m' ->
       encoder_layers m' = encoder_layers m /\
       map weights (encoder_layers m') = map weights (encoder_layers m)) /\
  (exists m m',
     run (Train.build_unet init INPUT_SHAPE OUTPUT_CHANNELS) = Some m /\
     length (encoder_layers m) = 150 /\
     fit grow (compile m "adam" "SparseCategoricalCrossentropy" ["accuracy"])
       1 1 1 = Some m' /\
     encoder_layers m' = encoder_layers m /\
     map weights (decoder_layers m') <> map weights (decoder_layers m)).
Proof.
  split; [|split].
  - destruct (down_stack_layers init) as [d (Hd & Hlen & Hfr)].
    apply forallb_frozen in Hfr.
    exists d. split; [exact Hd|]. clear Hd.
    split; [exact Hlen|]. split; [exact Hfr|].
    intros k n. now apply train_steps_all_frozen.
  - intros input_shape output_channels m Hm.
    apply build_unet_encoder_frozen in Hm as Hfr.
    split; [exact Hfr|].
    intros optimizer loss metrics epochs steps_per_epoch validation_steps m'
      Hfit.
    assert (E : encoder_layers m' = encoder_layers m).
    { exact (fit_encoder_layers update (compile m optimizer loss metrics)
               _ _ _ _ Hfr Hfit). }
    split; [exact E|]. now rewrite E.
  - destruct (build_unet_nodes init OUTPUT_CHANNELS ltac:(vm_compute; lia))
      as [m (Hm & _ & _ & _ & _ & _ & _ & Hfr & Hlen & Hg & Hd)].
    apply forallb_frozen in Hfr.
    exists m, (train_step grow 0 (compile m "adam"
                 "SparseCategoricalCrossentropy" ["accuracy"])).
    split; [exact Hm|]. clear Hm.
    split; [exact Hlen|]. split; [reflexivity|]. split.
    + exact (encoder_layers_train_step grow 0
               (compile m "adam" "SparseCategoricalCrossentropy" ["accuracy"])
               Hfr).
    + change (decoder_layers (train_step grow 0 (compile m "adam"
                "SparseCategoricalCrossentropy" ["accuracy"])))
        with (decoder_layers (train_step grow 0 m)).
      intros E.
      assert (E1 : nth 1 (map weights (decoder_layers (train_step grow 0 m)))
                     []
                   = nth 1 (map weights (decoder_layers m)) [])
        by now rewrite E.
      change (@nil Q) with (weights (mkLayer "" Add false [])) in E1.
      rewrite !map_nth, Hg, Hd in E1. simpl in E1.
      apply (f_equal (@length Q)) in E1. simpl in E1. lia.
Qed.

(** ** [train_evaluate] *)

(** What has happened when [train_evaluate] has returned. *)
Lemma train_evaluate_inv
    (init : string -> list Q) (update : nat -> Model -> Layer -> list Q)
    (batch_size : nat) (tf_dataset data_dir : string) (input_shape : Shape)
    (output_channels epochs : nat) (output_dir : option string)
    (w w' : Train.World) :
  Train.train_evaluate init update batch_size tf_dataset data_dir
    input_shape output_channels epochs output_dir w = Some w' ->
  exists info m m',
    Train.datasets w !! (data_dir, tf_dataset) = Some info /\
    batch_size <> 0 /\
    run (Train.build_unet init input_shape output_channels) = Some m /\
    fit update (compile m "adam" "SparseCategoricalCrossentropy" ["accuracy"])
      epochs (Train.train_num_examples info / batch_size)
      (Train.test_num_examples info / batch_size) = Some m' /\
    w' = match Train.truthy output_dir with
         | Some d => Train.save m' d w
         | None => w
         end.
Proof.
  unfold Train.train_evaluate. intros H.
  destruct (Train.datasets w !! (data_dir, tf_dataset)) as [info|];
    simpl in H; [|discriminate].
  destruct (Nat.eqb_spec batch_size 0) as [|Hb]; [discriminate|].
  destruct (run (Train.build_unet init input_shape output_channels))
    as [m|]; simpl in H; [|discriminate].
  destruct (fit update _ _ _ _) as [m'|] eqn:Hfit; simpl in H; [|discriminate].
  exists info, m, m'. repeat split; try assumption.
  destruct (Train.truthy output_dir); congruence.
Qed.

(** C7.  When [train_evaluate], called with a directory path [output_dir],
    has returned, training has completed and the model that [fit] returned
    is saved at that path: the model that [build_unet] composed, compiled
    and fitted for the epochs and steps of the call.  The other saved
    models and the datasets are as before. *)
Theorem train_evaluate_saves_trained_model
    (init : string -> list Q) (update : nat -> Model -> Layer -> list Q)
    (batch_size : nat) (tf_dataset data_dir : string) (input_shape : Shape)
    (output_channels epochs : nat) (output_dir : string)
    (w w' : Train.World) :
  Train.train_evaluate init update batch_size tf_dataset data_dir
    input_shape output_channels epochs (Some output_dir) w = Some w' ->
  output_dir <> "" ->
  exists info m m',
    Train.datasets w !! (data_dir, tf_dataset) = Some info /\
    run (Train.build_unet init input_shape output_channels) = Some m /\
    fit update (compile m "adam" "SparseCategoricalCrossentropy" ["accuracy"])
      epochs (Train.train_num_examples info / batch_size)
      (Train.test_num_examples info / batch_size) = Some m' /\
    Train.saved w' !! output_dir = Some m' /\
    (forall path, path <> output_dir ->
       Train.saved w' !! path = Train.saved w !! path) /\
    Train.datasets w' = Train.datasets w.
Proof.
  intros H Hd.
  apply train_evaluate_inv in H as (info & m & m' & Hinfo & _ & Hm & Hfit & ->).
  exists info, m, m'. split; [exact Hinfo|]. split; [exact Hm|].
  split; [exact Hfit|].
  unfold Train.truthy.
  destruct (String.eqb_spec output_dir "") as [|_]; [contradiction|].
  repeat split.
  - unfold Train.save. simpl. apply lookup_insert_eq.
  - intros path Hp. unfold Train.save. simpl. now apply lookup_insert_ne.
Qed.

Lemma train_evaluate_saves_trained_model_witness :
  exists w' info m m',
    Train.train_evaluate ones grow 64 "oxford_iiit_pet"
      "gs://asl-public/data/tensorflow_datasets" INPUT_SHAPE OUTPUT_CHANNELS
      1 (Some "trained_unet") pets_world = Some w' /\
    Train.datasets pets_world
      !! ("gs://asl-public/data/tensorflow_datasets", "oxford_iiit_pet")
    = Some info /\
    run (Train.build_unet ones INPUT_SHAPE OUTPUT_CHANNELS) = Some m /\
    fit grow (compile m "adam" "SparseCategoricalCrossentropy" ["accuracy"])
      1 (Train.train_num_examples info / 64)
      (Train.test_num_examples info / 64) = Some m' /\
    Train.saved w' !! "trained_unet" = Some m' /\
    (forall path, path <> "trained_unet" ->
       Train.saved w' !! path = Train.saved pets_world !! path) /\
    Train.datasets w' = Train.datasets pets_world.
Proof.
  assert (E : is_Some (Train.train_evaluate ones grow 64 "oxford_iiit_pet"
                "gs://asl-public/data/tensorflow_datasets" INPUT_SHAPE
                OUTPUT_CHANNELS 1 (Some "trained_unet") pets_world)).
  { vm_compute. eexists. reflexivity. }
  destruct E as [w' E]. exists w'.
  destruct (train_evaluate_saves_trained_model ones grow 64 "oxford_iiit_pet"
              "gs://asl-public/data/tensorflow_datasets" INPUT_SHAPE
              OUTPUT_CHANNELS 1 "trained_unet" pets_world w' E
              ltac:(discriminate)) as (info & m & m' & H).
  exists info, m, m'. split; [exact E|exact H].
Defined.

(** X19.  With [output_dir] left at [None], its default, or given as the empty
    string, a run of [train_evaluate] that returns has saved nothing: the
    saved models and the datasets are as before. *)
Lemma train_evaluate_without_output_dir
    (init : string -> list Q) (update : nat -> Model -> Layer -> list Q)
    (batch_size : nat) (tf_dataset data_dir : string) (input_shape : Shape)
    (output_channels epochs : nat) (output_dir : option string)
    (w w' : Train.World) :
  output_dir = None \/ output_dir = Some "" ->
  Train.train_evaluate init update batch_size tf_dataset data_dir
    input_shape output_channels epochs output_dir w = Some w' ->
  w' = w.
Proof.
  intros Hd H.
  apply train_evaluate_inv in H as (info & m & m' & _ & _ & _ & _ & ->).
  now destruct Hd as [-> | ->].
Qed.

(** * Further properties *)

(** ** [read_and_preprocess]: when it raises, and what it returns *)

Lemma resize_None t size :
  Resize.resize t size = None <->
  height t = 0 \/ width t = 0 \/ channels t = 0.
Proof.
  unfold Resize.resize.
  destruct (Nat.eqb_spec (height t) 0) as [Hh|Hh];
    destruct (Nat.eqb_spec (width t) 0) as [Hw|Hw];
    destruct (Nat.eqb_spec (channels t) 0) as [Hc|Hc]; simpl;
    split; auto; try discriminate; intros [?|[?|?]]; contradiction.
Qed.

Lemma read_and_preprocess_None data :
  read_and_preprocess data = None <-> empty_record data.
Proof.
  unfold read_and_preprocess, empty_record.
  destruct (Resize.resize (image data) (128, 128)) as [i|] eqn:Hi.
  - destruct (Resize.resize (segmentation_mask data) (128, 128)) as [m|] eqn:Hm;
      simpl.
    + split; [discriminate|].
      assert (Hi' : Resize.resize (image data) (128, 128) <> None)
        by congruence.
      assert (Hm' : Resize.resize (segmentation_mask data) (128, 128) <> None)
        by congruence.
      rewrite resize_None in Hi', Hm'. tauto.
    + split; [|reflexivity]. intros _. apply resize_None in Hm. tauto.
  - simpl. split; [|reflexivity]. intros _. apply resize_None in Hi. tauto.
Qed.

(** X1.  [read_and_preprocess], of the notebook and of [train.py], raises
    exactly on a record whose image or mask has no row, no column or no
    channel. *)
Theorem read_and_preprocess_raises_iff data :
  (read_and_preprocess data = None <->
   height (image data) = 0 \/ width (image data) = 0 \/
   channels (image data) = 0 \/
   height (segmentation_mask data) = 0 \/
   width (segmentation_mask data) = 0 \/
   channels (segmentation_mask data) = 0) /\
  (Train.read_and_preprocess data = None <->
   height (image data) = 0 \/ width (image data) = 0 \/
   channels (image data) = 0 \/
   height (segmentation_mask data) = 0 \/
   width (segmentation_mask data) = 0 \/
   channels (segmentation_mask data) = 0).
Proof.
  split.
  - apply read_and_preprocess_None.
  - change (Train.read_and_preprocess data) with (read_and_preprocess data).
    apply read_and_preprocess_None.
Qed.

(** X2.  Both tensors that [read_and_preprocess] returns are float32, the mask
    too, and the image is the resized input as [tf.image.resize] gives it:
    the conversion that follows changes nothing. *)
Theorem read_and_preprocess_float32 data im mk :
  read_and_preprocess data = Some (im, mk) ->
  dtype im = float32 /\ dtype mk = float32 /\
  Resize.resize (image data) (128, 128) = Some im /\
  convert_image_dtype im float32 = im.
Proof.
  intros H. apply read_and_preprocess_inv in H as [Hi [m [Hm ->]]].
  destruct (resize_spatial _ _ _ _ Hi) as [_ Hdi].
  destruct (resize_spatial _ _ _ _ Hm) as [_ Hdm].
  repeat split; try assumption.
  now apply convert_image_dtype_float32.
Qed.

Lemma read_and_preprocess_float32_witness :
  exists im mk,
    read_and_preprocess white_record = Some (im, mk) /\
    dtype im = float32 /\ dtype mk = float32 /\
    Resize.resize (image white_record) (128, 128) = Some im /\
    convert_image_dtype im float32 = im.
Proof.
  eexists _, _. split; [reflexivity|].
  apply (read_and_preprocess_float32 white_record). reflexivity.
Defined.

(** ** [read_and_preprocess]: the range of the values *)

Lemma lerp_between (lo hi a b t : Q) :
  (lo <= a <= hi)%Q -> (lo <= b <= hi)%Q -> (0 <= t <= 1)%Q ->
  (lo <= a + (b - a) * t <= hi)%Q.
Proof. intros [? ?] [? ?] [? ?]. split; nra. Qed.

Lemma compute_lerp_between (lo hi tl tr bl br x y : Q) :
  (lo <= tl <= hi)%Q -> (lo <= tr <= hi)%Q ->
  (lo <= bl <= hi)%Q -> (lo <= br <= hi)%Q ->
  (0 <= x <= 1)%Q -> (0 <= y <= 1)%Q ->
  (lo <= Resize.compute_lerp tl tr bl br x y <= hi)%Q.
Proof.
  intros. unfold Resize.compute_lerp. cbv zeta.
  apply lerp_between; [apply lerp_between..|]; assumption.
Qed.

Lemma inject_nat_lt (i m : nat) :
  i < m -> (inject_Z (Z.of_nat i) + 1 <= inject_Z (Z.of_nat m))%Q.
Proof.
  intros H. change 1%Q with (inject_Z 1). rewrite <- inject_Z_plus.
  rewrite <- Zle_Qle. lia.
Qed.

Lemma resize_scale_pos in_size out_size :
  0 < in_size -> 0 < out_size ->
  (0 < Resize.resize_scale in_size out_size)%Q /\
  (inject_Z (Z.of_nat out_size) * Resize.resize_scale in_size out_size
   == inject_Z (Z.of_nat in_size))%Q.
Proof.
  intros Hi Ho. unfold Resize.resize_scale.
  assert (Hn : (0 < inject_Z (Z.of_nat in_size))%Q).
  { change 0%Q with (inject_Z 0). rewrite <- Zlt_Qlt. lia. }
  assert (Hm : (0 < inject_Z (Z.of_nat out_size))%Q).
  { change 0%Q with (inject_Z 0). rewrite <- Zlt_Qlt. lia. }
  split.
  - apply Qlt_shift_div_l; [exact Hm|]. now rewrite Qmult_0_l.
  - apply Qmult_div_r. intros E. rewrite E in Hm. discriminate.
Qed.

(** The source coordinate of an output index lies strictly between -1/2
    and the input size minus 1/2. *)
Lemma scaler_bounds in_size out_size i :
  0 < in_size -> i < out_size ->
  (- (1 # 2) < Resize.scaler i (Resize.resize_scale in_size out_size))%Q /\
  (Resize.scaler i (Resize.resize_scale in_size out_size)
   < inject_Z (Z.of_nat in_size) - (1 # 2))%Q.
Proof.
  intros Hi Hlt.
  destruct (resize_scale_pos in_size out_size Hi ltac:(lia)) as [Hs Hms].
  pose proof (inject_nat_lt _ _ Hlt) as Him.
  assert (H0 : (0 <= inject_Z (Z.of_nat i))%Q).
  { change 0%Q with (inject_Z 0). rewrite <- Zle_Qle. lia. }
  unfold Resize.scaler.
  set (s := Resize.resize_scale in_size out_size) in *.
  set (a := inject_Z (Z.of_nat i)) in *.
  set (m := inject_Z (Z.of_nat out_size)) in *.
  set (n := inject_Z (Z.of_nat in_size)) in *.
  split; nra.
Qed.

Lemma floor_ge_minus_one (x : Q) : (- (1 # 2) < x)%Q -> (-1 <= Qfloor x)%Z.
Proof.
  intros H. pose proof (Qlt_floor x) as Hf.
  destruct (Z_lt_le_dec (Qfloor x) (-1)) as [Hlt|]; [|assumption].
  exfalso.
  assert (Hq : (inject_Z (Qfloor x + 1) <= inject_Z (-1))%Q)
    by (rewrite <- Zle_Qle; lia).
  change (inject_Z (-1)) with (-1)%Q in Hq. lra.
Qed.

Lemma floor_lt_size (x : Q) (n : Z) :
  (x < inject_Z n)%Q -> (Qfloor x <= n - 1)%Z.
Proof.
  intros H. pose proof (Qfloor_le x) as Hf.
  assert (Hq : (inject_Z (Qfloor x) < inject_Z n)%Q) by lra.
  rewrite <- Zlt_Qlt in Hq. lia.
Qed.

Lemma ceiling_ge_zero (x : Q) : (- (1 # 2) < x)%Q -> (0 <= Qceiling x)%Z.
Proof.
  intros H. pose proof (Qle_ceiling x) as Hc.
  assert (Hq : (inject_Z (-1) < inject_Z (Qceiling x))%Q).
  { change (inject_Z (-1)) with (-1)%Q. lra. }
  rewrite <- Zlt_Qlt in Hq. lia.
Qed.

(** The two source indices of an output index are indices of the input,
    and the weight between them is a number of [0,1]. *)
Lemma interpolation_weights_in_range in_size out_size i :
  0 < in_size -> i < out_size ->
  let ci := Resize.compute_interpolation_weights in_size
              (Resize.resize_scale in_size out_size) i in
  (0 <= Resize.lower ci < Z.of_nat in_size)%Z /\
  (0 <= Resize.upper ci < Z.of_nat in_size)%Z /\
  (0 <= Resize.lerp ci <= 1)%Q.
Proof.
  intros Hi Hlt. unfold Resize.compute_interpolation_weights.
  destruct (scaler_bounds in_size out_size i Hi Hlt) as [Hlo Hhi].
  set (x := Resize.scaler i (Resize.resize_scale in_size out_size)) in *.
  cbv zeta. unfold Resize.lower, Resize.upper, Resize.lerp.
  pose proof (floor_ge_minus_one x Hlo) as Hf1.
  assert (Hf2 : (Qfloor x <= Z.of_nat in_size - 1)%Z).
  { apply floor_lt_size. lra. }
  pose proof (ceiling_ge_zero x Hlo) as Hc.
  pose proof (Qfloor_le x) as Hfl. pose proof (Qlt_floor x) as Hfu.
  rewrite inject_Z_plus in Hfu. change (inject_Z 1) with 1%Q in Hfu.
  repeat split; try lia; lra.
Qed.

Lemma at_in_range (lo hi : Q) t h w c (y x : Z) (k : nat) :
  has_shape h w c t -> all_values (fun v => (lo <= v <= hi)%Q) t ->
  (0 <= y < Z.of_nat h)%Z -> (0 <= x < Z.of_nat w)%Z -> k < c ->
  (lo <= at_ (values t) y x k <= hi)%Q.
Proof.
  intros [[Hh Hw] Hc] Hv Hy Hx Hk.
  rewrite <- (Z2Nat.id y), <- (Z2Nat.id x) by lia.
  assert (Hy' : Z.to_nat y < length (values t)) by lia.
  assert (Hrow : In (nth (Z.to_nat y) (values t) []) (values t))
    by now apply nth_In.
  apply list_elem_of_In in Hrow.
  assert (Hx' : Z.to_nat x < length (nth (Z.to_nat y) (values t) [])).
  { rewrite Forall_forall in Hw. rewrite (Hw _ Hrow). lia. }
  apply (all_values_at _ t (Z.to_nat y) (Z.to_nat x) k Hv Hy' Hx').
  unfold has_channels in Hc. rewrite Forall_forall in Hc.
  specialize (Hc _ Hrow). rewrite Forall_forall in Hc.
  rewrite (Hc (nth (Z.to_nat x) (nth (Z.to_nat y) (values t) []) [])); [lia|].
  apply list_elem_of_In, nth_In, Hx'.
Qed.

Lemma channels_of_shape t h w c :
  has_shape h w c t -> 0 < h -> 0 < w -> channels t = c.
Proof.
  intros [[Hh Hw] Hc] Hh0 Hw0. unfold channels, has_channels in *.
  destruct (values t) as [|row rows]; simpl in *; [lia|].
  inversion Hw as [|? ? Hrow _]; subst.
  inversion Hc as [|? ? Hpx _]; subst.
  destruct row as [|px row]; simpl in *; [lia|].
  now inversion Hpx.
Qed.

(** Bilinear resizing never leaves the range of the values it reads. *)
Lemma resize_within_range (lo hi : Q) t h w c out_h out_w r :
  has_shape h w c t -> all_values (fun v => (lo <= v <= hi)%Q) t ->
  Resize.resize t (out_h, out_w) = Some r ->
  all_values (fun v => (lo <= v <= hi)%Q) r.
Proof.
  intros Hs Hv Hr. unfold Resize.resize in Hr.
  destruct (Nat.eqb_spec (height t) 0) as [|Hh0]; [discriminate|].
  destruct (Nat.eqb_spec (width t) 0) as [|Hw0]; [discriminate|].
  simpl in Hr.
  destruct (Nat.eqb_spec (channels t) 0) as [|Hc0]; [discriminate|].
  injection Hr as <-.
  assert (Hh : height t = h) by apply Hs.
  assert (Hw : width t = w).
  { destruct Hs as [[_ Hw] _]. unfold width in *.
    destruct (values t) as [|row rows]; simpl in *; [lia|].
    now inversion Hw. }
  rewrite (channels_of_shape t h w c Hs) by lia. rewrite Hh, Hw.
  unfold all_values, Resize.resize_image. simpl.
  apply Forall_map, Forall_forall. intros y Hy. simpl.
  apply Forall_map, Forall_forall. intros x Hx. simpl.
  apply Forall_map, Forall_forall. intros k Hk. simpl.
  apply elem_of_seq in Hy, Hx, Hk.
  destruct (interpolation_weights_in_range h out_h y ltac:(lia) ltac:(lia))
    as (Hly & Huy & Hty).
  destruct (interpolation_weights_in_range w out_w x ltac:(lia) ltac:(lia))
    as (Hlx & Hux & Htx).
  apply compute_lerp_between; try assumption;
    apply (at_in_range lo hi t h w c); try assumption; lia.
Qed.

Lemma tensor_sub_range (lo hi k : Q) t :
  all_values (fun v => (lo <= v <= hi)%Q) t ->
  all_values (fun v => (lo - k <= v <= hi - k)%Q) (tensor_sub t k).
Proof.
  unfold all_values, tensor_sub, map_values. simpl. intros H.
  apply Forall_map. eapply Forall_impl; [exact H|]. intros row Hrow. simpl.
  apply Forall_map. eapply Forall_impl; [exact Hrow|]. intros px Hpx. simpl.
  apply Forall_map. eapply Forall_impl; [exact Hpx|]. intros v [Hl Hu].
  cbv beta. split; lra.
Qed.

(** X3.  For a record of the dataset (a uint8 image, a mask of labels 1 to 3),
    of any size, the image that [read_and_preprocess] returns holds values
    between 0 and 255 and the mask values between 0 and 2. *)
Theorem read_and_preprocess_value_range data h w im mk :
  pet_record h w data ->
  read_and_preprocess data = Some (im, mk) ->
  all_values (fun v => (0 <= v <= 255)%Q) im /\
  all_values (fun v => (0 <= v <= 2)%Q) mk.
Proof.
  intros (Hi & Hm & Hvi & Hvm) H.
  apply read_and_preprocess_inv in H as [Hri [m [Hrm ->]]].
  split.
  - exact (resize_within_range 0 255 _ h w 3 128 128 im Hi Hvi Hri).
  - pose proof (resize_within_range 1 3 _ h w 1 128 128 m Hm Hvm Hrm) as Hr.
    apply (tensor_sub_range 1 3 1) in Hr.
    unfold all_values in *.
    eapply Forall_impl; [exact Hr|]. intros row Hrow.
    eapply Forall_impl; [exact Hrow|]. intros px Hpx.
    eapply Forall_impl; [exact Hpx|]. intros v [Hl Hu]. cbv beta in *.
    split; lra.
Qed.

Lemma read_and_preprocess_value_range_witness :
  exists im mk,
    read_and_preprocess white_record = Some (im, mk) /\
    all_values (fun v => (0 <= v <= 255)%Q) im /\
    all_values (fun v => (0 <= v <= 2)%Q) mk.
Proof.
  eexists _, _. split; [reflexivity|].
  apply (read_and_preprocess_value_range white_record 1 2).
  - unfold pet_record, has_shape, has_spatial, has_channels, all_values.
    simpl. repeat split; repeat constructor; discriminate.
  - reflexivity.
Defined.

(** ** The shape of what [read_and_preprocess] returns *)

(** The result of resizing has the size asked for and the channels of the
    first pixel of the input. *)
Lemma resize_has_shape t out_h out_w r :
  Resize.resize t (out_h, out_w) = Some r ->
  has_shape out_h out_w (channels t) r.
Proof.
  intros Hr. split; [apply (resize_spatial _ _ _ _ Hr)|].
  revert Hr. unfold Resize.resize. destruct (_ || _); [discriminate|].
  destruct (_ =? 0); [discriminate|].
  intros [= <-]. unfold has_channels, Resize.resize_image. cbn [values].
  apply Forall_map, Forall_forall. intros y _.
  apply Forall_map, Forall_forall. intros x _.
  cbv beta zeta. rewrite length_map. apply length_seq.
Qed.

Lemma resize_shape t h w c out_h out_w r :
  has_shape h w c t -> 0 < h -> 0 < w ->
  Resize.resize t (out_h, out_w) = Some r -> has_shape out_h out_w c r.
Proof.
  intros Hs Hh Hw Hr.
  rewrite <- (channels_of_shape t h w c Hs Hh Hw).
  now apply resize_has_shape.
Qed.

Lemma tensor_sub_shape t k h w c :
  has_shape h w c t -> has_shape h w c (tensor_sub t k).
Proof.
  intros [Hs Hc]. unfold tensor_sub. split.
  - apply map_values_spatial. now destruct t.
  - revert Hc. unfold has_channels, map_values. cbn [values]. intros Hc.
    apply Forall_map. eapply Forall_impl; [exact Hc|].
    intros row Hrow. cbv beta. apply Forall_map.
    eapply Forall_impl; [exact Hrow|].
    intros px Hpx. cbv beta. now rewrite length_map.
Qed.

Lemma width_of_shape t h w c : has_shape h w c t -> 0 < h -> width t = w.
Proof.
  intros [[Hh Hw] _] Hh0. unfold width.
  destruct (values t) as [|row rows]; simpl in *; [lia|].
  now inversion Hw.
Qed.

(** X4.  On a record whose image and mask have rows, columns and channels, of
    whatever size each, [read_and_preprocess] (of the notebook and of
    [train.py]) returns an image and a mask of 128 by 128 pixels with the
    channels of the input; for an image of three channels that is the input
    shape of the model. *)
Theorem read_and_preprocess_shape data h w h' w' ci cm :
  has_shape h w ci (image data) ->
  has_shape h' w' cm (segmentation_mask data) ->
  0 < h -> 0 < w -> 0 < ci -> 0 < h' -> 0 < w' -> 0 < cm ->
  exists im mk,
    read_and_preprocess data = Some (im, mk) /\
    Train.read_and_preprocess data = Some (im, mk) /\
    has_shape 128 128 ci im /\
    has_shape 128 128 cm mk /\
    (ci = 3 -> (height im, width im, channels im) = INPUT_SHAPE).
Proof.
  intros Hi Hm Hh Hw Hci Hh' Hw' Hcm.
  assert (Hti : has_spatial h w (image data)) by apply Hi.
  assert (Htm : has_spatial h' w' (segmentation_mask data)) by apply Hm.
  destruct (resize_is_Some (image data) (128, 128)) as [i Ei].
  { unfold height. destruct Hti as [-> _]. lia. }
  { rewrite (width_of_shape _ _ _ _ Hi Hh). lia. }
  { rewrite (channels_of_shape _ _ _ _ Hi Hh Hw). lia. }
  destruct (resize_is_Some (segmentation_mask data) (128, 128)) as [m Em].
  { unfold height. destruct Htm as [-> _]. lia. }
  { rewrite (width_of_shape _ _ _ _ Hm Hh'). lia. }
  { rewrite (channels_of_shape _ _ _ _ Hm Hh' Hw'). lia. }
  pose proof (resize_shape _ _ _ _ _ _ _ Hi Hh Hw Ei) as Hsi.
  pose proof (resize_shape _ _ _ _ _ _ _ Hm Hh' Hw' Em) as Hsm.
  assert (Hd : dtype i = float32) by apply (resize_spatial _ _ _ _ Ei).
  exists i, (tensor_sub m 1).
  assert (E : read_and_preprocess data = Some (i, tensor_sub m 1)).
  { unfold read_and_preprocess. rewrite Ei, Em. simpl.
    now rewrite (convert_image_dtype_float32 i Hd). }
  split; [exact E|]. split; [exact E|]. split; [exact Hsi|].
  split; [now apply tensor_sub_shape|].
  intros ->. unfold INPUT_SHAPE.
  rewrite (width_of_shape _ _ _ _ Hsi), (channels_of_shape _ _ _ _ Hsi)
    by lia.
  unfold height. destruct Hsi as [[-> _] _]. reflexivity.
Qed.

Lemma read_and_preprocess_shape_witness :
  exists im mk,
    read_and_preprocess white_record = Some (im, mk) /\
    Train.read_and_preprocess white_record = Some (im, mk) /\
    has_shape 128 128 3 im /\
    has_shape 128 128 1 mk /\
    (3 = 3 -> (height im, width im, channels im) = INPUT_SHAPE).
Proof.
  apply (read_and_preprocess_shape white_record 1 2 1 2 3 1); try lia.
  - unfold has_shape, has_spatial, has_channels. simpl.
    repeat split; repeat constructor.
  - unfold has_shape, has_spatial, has_channels. simpl.
    repeat split; repeat constructor.
Defined.

(** The shapes of a preprocessed example: 128 by 128, with the channels
    of the record. *)
Lemma read_and_preprocess_has_shape data im mk :
  read_and_preprocess data = Some (im, mk) ->
  has_shape 128 128 (channels (image data)) im /\
  has_shape 128 128 (channels (segmentation_mask data)) mk.
Proof.
  intros H. apply read_and_preprocess_inv in H as [Hi [m [Hm ->]]].
  split; [now apply resize_has_shape|].
  apply tensor_sub_shape. now apply resize_has_shape.
Qed.

(** ** [read_and_preprocess] on a record of the target size *)

Lemma resize_scale_same n : 0 < n -> (Resize.resize_scale n n == 1)%Q.
Proof.
  intros Hn. unfold Resize.resize_scale. apply Qmult_inv_r.
  intros E. assert (H : (0 < inject_Z (Z.of_nat n))%Q).
  { change 0%Q with (inject_Z 0). rewrite <- Zlt_Qlt. lia. }
  rewrite E in H. discriminate.
Qed.

Lemma scaler_same n i :
  0 < n ->
  (Resize.scaler i (Resize.resize_scale n n) == inject_Z (Z.of_nat i))%Q.
Proof.
  intros Hn. unfold Resize.scaler.
  setoid_replace (Resize.resize_scale n n) with 1%Q using relation Qeq
    by (now apply resize_scale_same).
  ring.
Qed.

(** At equal input and output size each output index reads its own
    position, with weight zero. *)
Lemma interpolation_weights_same n i :
  0 < n -> i < n ->
  let ci := Resize.compute_interpolation_weights n
              (Resize.resize_scale n n) i in
  Resize.lower ci = Z.of_nat i /\ Resize.upper ci = Z.of_nat i /\
  (Resize.lerp ci == 0)%Q.
Proof.
  intros Hn Hi. unfold Resize.compute_interpolation_weights.
  pose proof (scaler_same n i Hn) as Hx.
  set (x := Resize.scaler i (Resize.resize_scale n n)) in *.
  cbv zeta. unfold Resize.lower, Resize.upper, Resize.lerp.
  rewrite (Qfloor_comp _ _ Hx), (Qceiling_comp _ _ Hx), Qfloor_Z, Qceiling_Z.
  repeat split; try lia. lra.
Qed.

Lemma compute_lerp_corner (a b c d x y : Q) :
  (x == 0)%Q -> (y == 0)%Q -> (Resize.compute_lerp a b c d x y == a)%Q.
Proof.
  intros Hx Hy. unfold Resize.compute_lerp. cbv zeta.
  setoid_replace x with 0%Q using relation Qeq by exact Hx.
  setoid_replace y with 0%Q using relation Qeq by exact Hy. ring.
Qed.

Lemma lookup_map_seq {A} (f : nat -> A) n i x :
  map f (seq 0 n) !! i = Some x -> i < n /\ x = f i.
Proof.
  intros H. change (map f (seq 0 n)) with (f <$> seq 0 n) in H.
  rewrite list_lookup_fmap in H.
  destruct (seq 0 n !! i) as [j|] eqn:E; [|discriminate].
  apply lookup_seq in E as [-> Hi]. simpl in H. injection H as <-. auto.
Qed.

(** Resizing a tensor to the size it has returns its values. *)
Lemma resize_same_size t h w c :
  has_shape h w c t -> 0 < h -> 0 < w -> 0 < c ->
  exists r, Resize.resize t (h, w) = Some r /\
            pointwise Qeq (values r) (values t).
Proof.
  intros Hs Hh0 Hw0 Hc0.
  assert (Hh : height t = h) by apply Hs.
  assert (Hw : width t = w).
  { destruct Hs as [[Hlen Hw] _]. unfold width in *.
    destruct (values t) as [|row rows]; simpl in *; [lia|].
    now inversion Hw. }
  unfold Resize.resize.
  rewrite Hh, Hw, (channels_of_shape t h w c Hs Hh0 Hw0).
  destruct (Nat.eqb_spec h 0) as [|_]; [lia|].
  destruct (Nat.eqb_spec w 0) as [|_]; [lia|].
  destruct (Nat.eqb_spec c 0) as [|_]; [lia|]. simpl.
  eexists. split; [reflexivity|]. simpl.
  destruct Hs as [[Hlen Hrows] Hch]. unfold has_channels in Hch.
  unfold pointwise, Resize.resize_image.
  apply Forall2_same_length_lookup_2.
  { rewrite length_map, length_seq. now symmetry. }
  intros y out_row row Hout Hrow.
  apply lookup_map_seq in Hout as [Hy ->].
  rewrite Forall_forall in Hrows, Hch.
  pose proof (Hrows _ (list_elem_of_lookup_2 _ _ _ Hrow)) as Hlrow.
  pose proof (Hch _ (list_elem_of_lookup_2 _ _ _ Hrow)) as Hcrow.
  apply Forall2_same_length_lookup_2.
  { rewrite length_map, length_seq. now symmetry. }
  intros x out_px px Hout Hpx.
  apply lookup_map_seq in Hout as [Hx ->].
  rewrite Forall_forall in Hcrow.
  pose proof (Hcrow _ (list_elem_of_lookup_2 _ _ _ Hpx)) as Hlpx.
  apply Forall2_same_length_lookup_2.
  { rewrite length_map, length_seq. now symmetry. }
  intros k out_v v Hout Hv.
  apply lookup_map_seq in Hout as [Hk ->].
  destruct (interpolation_weights_same h y Hh0 Hy) as (-> & _ & Hty).
  destruct (interpolation_weights_same w x Hw0 Hx) as (-> & _ & Htx).
  rewrite (compute_lerp_corner _ _ _ _ _ _ Htx Hty).
  unfold at_. rewrite !Nat2Z.id.
  rewrite (nth_lookup_Some _ _ _ _ Hrow), (nth_lookup_Some _ _ _ _ Hpx),
    (nth_lookup_Some _ _ _ _ Hv).
  reflexivity.
Qed.

Lemma pointwise_all_values (R : Q -> Q -> Prop) (P P' : Q -> Prop) a b :
  (forall v l, R v l -> P l -> P' v) ->
  pointwise R a b ->
  Forall (Forall (Forall P)) b -> Forall (Forall (Forall P')) a.
Proof.
  intros HR. unfold pointwise. intros H.
  induction H as [|ra rb a b Hr _ IH]; intros Hb; [constructor|].
  inversion Hb as [|? ? Hrb Hb']; subst. constructor; [|now apply IH].
  clear IH Hb Hb'. induction Hr as [|pa pb ra rb Hp _ IH]; [constructor|].
  inversion Hrb as [|? ? Hpb Hrb']; subst. constructor; [|now apply IH].
  clear IH Hrb Hrb'. induction Hp as [|v l pa pb Hv _ IH]; [constructor|].
  inversion Hpb; subst. constructor; [eauto|now apply IH].
Qed.

(** X5.  On a record of uint8 values whose image and mask are 128 by 128
    already, [read_and_preprocess] returns the values of the image as they
    are and the values of the mask minus one, whole numbers again; so a
    mask of the labels 1, 2, 3 becomes a mask of 0, 1, 2. *)
Theorem read_and_preprocess_at_target_size data ci cm :
  has_shape 128 128 ci (image data) ->
  has_shape 128 128 cm (segmentation_mask data) ->
  0 < ci -> 0 < cm ->
  uint8_values (image data) ->
  uint8_values (segmentation_mask data) ->
  exists im mk,
    read_and_preprocess data = Some (im, mk) /\
    pointwise Qeq (values im) (values (image data)) /\
    pointwise (fun v l => (v == l - 1)%Q)
      (values mk) (values (segmentation_mask data)) /\
    uint8_values im /\
    all_values
      (fun v => exists k : Z, (v == inject_Z k)%Q /\ (-1 <= k <= 254)%Z) mk /\
    (all_values (fun l => (l == 1 \/ l == 2 \/ l == 3)%Q)
       (segmentation_mask data) ->
     all_values (fun v => (v == 0 \/ v == 1 \/ v == 2)%Q) mk).
Proof.
  intros Hi Hm Hci Hcm Hvi Hvm.
  destruct (resize_same_size _ 128 128 ci Hi) as [im [Him Hpi]]; [lia..|].
  destruct (resize_same_size _ 128 128 cm Hm) as [m [Hmm Hpm]]; [lia..|].
  assert (Hmk : pointwise (fun v l => (v == l - 1)%Q)
                  (values (tensor_sub m 1)) (values (segmentation_mask data))).
  { unfold tensor_sub, map_values, pointwise in *. simpl.
    apply Forall2_fmap_l. eapply Forall2_impl; [exact Hpm|].
    intros ra rb Hr. simpl. apply Forall2_fmap_l.
    eapply Forall2_impl; [exact Hr|]. intros pa pb Hp. simpl.
    apply Forall2_fmap_l. eapply Forall2_impl; [exact Hp|].
    intros v l Hv. simpl. now rewrite Hv. }
  exists im, (tensor_sub m 1).
  split; [|split; [exact Hpi|split; [exact Hmk|split; [|split]]]].
  - unfold read_and_preprocess. rewrite Him, Hmm. simpl.
    destruct (resize_spatial _ _ _ _ Him) as [_ Hd].
    now rewrite (convert_image_dtype_float32 _ Hd).
  - unfold uint8_values, all_values in *.
    eapply pointwise_all_values; [|exact Hpi|exact Hvi].
    intros v l Hv (k & Hk & Hr). exists k. split; [|exact Hr].
    now rewrite Hv.
  - unfold uint8_values, all_values in *.
    eapply pointwise_all_values; [|exact Hmk|exact Hvm].
    intros v l Hv (k & Hk & Hr). exists (k - 1)%Z. split; [|lia].
    rewrite Hv, Hk. unfold Z.sub. rewrite inject_Z_plus. reflexivity.
  - unfold all_values. eapply pointwise_all_values; [|exact Hmk].
    intros v l Hv [H|[H|H]]; cbv beta in *; lra.
Qed.

Lemma plain_tensor_shape (d : DType) (px : list Q) :
  has_shape 128 128 (length px) (mkTensor d (repeat (repeat px 128) 128)).
Proof.
  split; [split|]; cbn [values].
  - apply repeat_length.
  - apply Forall_forall. intros row Hr.
    apply list_elem_of_In, repeat_spec in Hr. subst. apply repeat_length.
  - apply Forall_forall. intros row Hr.
    apply list_elem_of_In, repeat_spec in Hr. subst.
    apply Forall_forall. intros p Hp.
    apply list_elem_of_In, repeat_spec in Hp. now subst.
Qed.

Lemma plain_tensor_values (P : Q -> Prop) (d : DType) (px : list Q) :
  Forall P px -> all_values P (mkTensor d (repeat (repeat px 128) 128)).
Proof.
  intros H. unfold all_values. cbn [values].
  apply Forall_forall. intros row Hr.
  apply list_elem_of_In, repeat_spec in Hr. subst.
  apply Forall_forall. intros p Hp.
  apply list_elem_of_In, repeat_spec in Hp. now subst.
Qed.

Lemma read_and_preprocess_at_target_size_witness :
  exists im mk,
    read_and_preprocess plain_record = Some (im, mk) /\
    pointwise Qeq (values im) (values (image plain_record)) /\
    pointwise (fun v l => (v == l - 1)%Q)
      (values mk) (values (segmentation_mask plain_record)) /\
    uint8_values im /\
    all_values
      (fun v => exists k : Z, (v == inject_Z k)%Q /\ (-1 <= k <= 254)%Z) mk /\
    (all_values (fun l => (l == 1 \/ l == 2 \/ l == 3)%Q)
       (segmentation_mask plain_record) ->
     all_values (fun v => (v == 0 \/ v == 1 \/ v == 2)%Q) mk).
Proof.
  apply (read_and_preprocess_at_target_size plain_record 3 1).
  - apply (plain_tensor_shape uint8 (rgb 10 20 30)).
  - apply (plain_tensor_shape uint8 (px1 2)).
  - lia.
  - lia.
  - apply plain_tensor_values. unfold rgb.
    repeat constructor; eexists; (split; [reflexivity|lia]).
  - apply plain_tensor_values. unfold px1.
    repeat constructor; eexists; (split; [reflexivity|lia]).
Defined.

(** ** [augment]: what it keeps *)

Lemma flip_left_right_spatial h w t :
  has_spatial h w t -> has_spatial h w (flip_left_right t).
Proof.
  unfold has_spatial, flip_left_right. simpl. intros [Hl Hr]. split.
  - now rewrite length_map.
  - apply Forall_map. eapply Forall_impl; [exact Hr|].
    intros row Hrow. simpl. now rewrite length_rev.
Qed.

Lemma flip_left_right_channels c t :
  has_channels c t -> has_channels c (flip_left_right t).
Proof.
  unfold has_channels, flip_left_right. simpl. intros H.
  apply Forall_map. eapply Forall_impl; [exact H|].
  intros row Hrow. simpl. now apply Forall_rev.
Qed.

Lemma flip_left_right_values P t :
  all_values P t -> all_values P (flip_left_right t).
Proof.
  unfold all_values, flip_left_right. simpl. intros H.
  apply Forall_map. eapply Forall_impl; [exact H|].
  intros row Hrow. simpl. now apply Forall_rev.
Qed.

Lemma flip_left_right_involutive t :
  flip_left_right (flip_left_right t) = t.
Proof.
  destruct t as [d p]. unfold flip_left_right. simpl. f_equal.
  rewrite map_map. rewrite <- (map_id p) at 2.
  apply map_ext. intros row. apply rev_involutive.
Qed.

(** Column [x] of a mirrored tensor is column [w - 1 - x] of the tensor. *)
Lemma flip_left_right_at h w t (y x c : nat) :
  has_spatial h w t -> y < h -> x < w ->
  at_ (values (flip_left_right t)) (Z.of_nat y) (Z.of_nat x) c
  = at_ (values t) (Z.of_nat y) (Z.of_nat (mirror w x)) c.
Proof.
  intros [Hl Hr] Hy Hx. unfold at_, flip_left_right, mirror. simpl.
  rewrite !Nat2Z.id.
  change (@nil (list Q)) with (rev (@nil (list Q))) at 1.
  rewrite map_nth.
  assert (Hrow : length (nth y (values t) []) = w).
  { rewrite Forall_forall in Hr. apply Hr, list_elem_of_In, nth_In. lia. }
  rewrite rev_nth by lia. rewrite Hrow.
  replace (w - S x) with (w - 1 - x) by lia. reflexivity.
Qed.

(** X6.  Whatever the draw, [augment] (of the notebook and of [train.py]) keeps
    the dtype, the height and width, the number of channels and every
    property of the single values of both tensors: an image and a mask of
    the same size remain of the same size, and labels remain labels. *)
Theorem augment_keeps_shape_and_values (u : Q) (img mask : Tensor)
    (h w ci cm : nat) (P R : Q -> Prop) :
  has_shape h w ci img -> has_shape h w cm mask ->
  all_values P img -> all_values R mask ->
  (has_shape h w ci (fst (augment u img mask)) /\
   has_shape h w cm (snd (augment u img mask)) /\
   dtype (fst (augment u img mask)) = dtype img /\
   dtype (snd (augment u img mask)) = dtype mask /\
   all_values P (fst (augment u img mask)) /\
   all_values R (snd (augment u img mask))) /\
  (has_shape h w ci (fst (Train.augment u img mask)) /\
   has_shape h w cm (snd (Train.augment u img mask)) /\
   dtype (fst (Train.augment u img mask)) = dtype img /\
   dtype (snd (Train.augment u img mask)) = dtype mask /\
   all_values P (fst (Train.augment u img mask)) /\
   all_values R (snd (Train.augment u img mask))).
Proof.
  intros [Hsi Hci] [Hsm Hcm] HP HR. unfold augment, Train.augment, has_shape.
  split.
  - destruct (Qlt_bool u AUGMENT_PROB); simpl;
      auto 10 using flip_left_right_spatial, flip_left_right_channels,
        flip_left_right_values.
  - destruct (Qlt_bool (5 # 10) u); simpl;
      auto 10 using flip_left_right_spatial, flip_left_right_channels,
        flip_left_right_values.
Qed.

Lemma augment_keeps_shape_and_values_witness :
  let img := image white_record in
  let mask := segmentation_mask white_record in
  let P := fun v => (0 <= v <= 255)%Q in
  let R := fun v => (1 <= v <= 3)%Q in
  (has_shape 1 2 3 (fst (augment (1 # 4) img mask)) /\
   has_shape 1 2 1 (snd (augment (1 # 4) img mask)) /\
   dtype (fst (augment (1 # 4) img mask)) = dtype img /\
   dtype (snd (augment (1 # 4) img mask)) = dtype mask /\
   all_values P (fst (augment (1 # 4) img mask)) /\
   all_values R (snd (augment (1 # 4) img mask))) /\
  (has_shape 1 2 3 (fst (Train.augment (1 # 4) img mask)) /\
   has_shape 1 2 1 (snd (Train.augment (1 # 4) img mask)) /\
   dtype (fst (Train.augment (1 # 4) img mask)) = dtype img /\
   dtype (snd (Train.augment (1 # 4) img mask)) = dtype mask /\
   all_values P (fst (Train.augment (1 # 4) img mask)) /\
   all_values R (snd (Train.augment (1 # 4) img mask))).
Proof.
  apply (augment_keeps_shape_and_values (1 # 4) (image white_record)
           (segmentation_mask white_record) 1 2 3 1).
  - unfold has_shape, has_spatial, has_channels. simpl.
    repeat split; repeat constructor.
  - unfold has_shape, has_spatial, has_channels. simpl.
    repeat split; repeat constructor.
  - unfold all_values. simpl. repeat constructor; discriminate.
  - unfold all_values. simpl. repeat constructor; discriminate.
Defined.

(** X7.  The pixel of the augmented image and the pixel of the augmented mask
    at one position come from one and the same position of the inputs: the
    position itself, or its mirror image in the row.  The image and the
    mask stay aligned. *)
Theorem augment_keeps_alignment (u : Q) (img mask : Tensor) (h w : nat) :
  has_spatial h w img -> has_spatial h w mask ->
  exists from : nat -> nat,
    (forall x, x < w -> from x < w /\ from (from x) = x) /\
    forall y x ci cm, y < h -> x < w ->
      at_ (values (fst (augment u img mask))) (Z.of_nat y) (Z.of_nat x) ci
      = at_ (values img) (Z.of_nat y) (Z.of_nat (from x)) ci /\
      at_ (values (snd (augment u img mask))) (Z.of_nat y) (Z.of_nat x) cm
      = at_ (values mask) (Z.of_nat y) (Z.of_nat (from x)) cm.
Proof.
  intros Hi Hm. unfold augment. destruct (Qlt_bool u AUGMENT_PROB); simpl.
  - exists (mirror w). split.
    + intros x Hx. unfold mirror. lia.
    + intros y x ci cm Hy Hx.
      split; now apply (flip_left_right_at h w).
  - exists (fun x => x). split; [auto|]. intros. split; reflexivity.
Qed.

Lemma augment_keeps_alignment_witness :
  exists from : nat -> nat,
    (forall x, x < 2 -> from x < 2 /\ from (from x) = x) /\
    forall y x ci cm, y < 1 -> x < 2 ->
      at_ (values (fst (augment (1 # 4) (image white_record)
                          (segmentation_mask white_record))))
        (Z.of_nat y) (Z.of_nat x) ci
      = at_ (values (image white_record)) (Z.of_nat y) (Z.of_nat (from x)) ci
      /\
      at_ (values (snd (augment (1 # 4) (image white_record)
                          (segmentation_mask white_record))))
        (Z.of_nat y) (Z.of_nat x) cm
      = at_ (values (segmentation_mask white_record)) (Z.of_nat y)
          (Z.of_nat (from x)) cm.
Proof.
  apply (augment_keeps_alignment (1 # 4) (image white_record)
           (segmentation_mask white_record) 1 2).
  - unfold has_spatial. simpl. repeat split; repeat constructor.
  - unfold has_spatial. simpl. repeat split; repeat constructor.
Defined.

(** X8.  Augmenting twice with the same draw gives the tensors back: mirroring
    is its own inverse. *)
Theorem augment_twice (u : Q) (img mask : Tensor) :
  augment u (fst (augment u img mask)) (snd (augment u img mask))
  = (img, mask) /\
  Train.augment u (fst (Train.augment u img mask))
    (snd (Train.augment u img mask))
  = (img, mask).
Proof.
  unfold augment, Train.augment. split.
  - destruct (Qlt_bool u AUGMENT_PROB); simpl;
      now rewrite ?flip_left_right_involutive.
  - destruct (Qlt_bool (5 # 10) u); simpl;
      now rewrite ?flip_left_right_involutive.
Qed.

(** X9.  The notebook and [train.py] mirror on opposite draws: below one half
    the function of the notebook mirrors and the one of [train.py] does
    not, above one half it is the other way round, and at one half neither
    mirrors. *)
Theorem augment_versions_disagree (u : Q) (img mask : Tensor) :
  ((u < 1 # 2)%Q ->
   augment u img mask = (flip_left_right img, flip_left_right mask) /\
   Train.augment u img mask = (img, mask)) /\
  ((1 # 2 < u)%Q ->
   augment u img mask = (img, mask) /\
   Train.augment u img mask = (flip_left_right img, flip_left_right mask)) /\
  ((u == 1 # 2)%Q ->
   augment u img mask = (img, mask) /\
   Train.augment u img mask = (img, mask)).
Proof.
  assert (Hf : forall x y, ~ (x < y)%Q -> Qlt_bool x y = false).
  { intros x y H. destruct (Qlt_bool x y) eqn:E; [|reflexivity].
    apply Qlt_bool_iff in E. contradiction. }
  assert (Ht : forall x y, (x < y)%Q -> Qlt_bool x y = true).
  { intros x y H. now apply Qlt_bool_iff. }
  unfold augment, Train.augment, AUGMENT_PROB. repeat split; intros.
  - rewrite Ht; [reflexivity|lra].
  - rewrite Hf; [reflexivity|lra].
  - rewrite Hf; [reflexivity|lra].
  - rewrite Ht; [reflexivity|lra].
  - rewrite Hf; [reflexivity|lra].
  - rewrite Hf; [reflexivity|lra].
Qed.

(** ** [create_mask]: order is all that matters *)

Lemma Qlt_bool_monotone (f : Q -> Q) (x y : Q) :
  monotone f -> Qlt_bool (f x) (f y) = Qlt_bool x y.
Proof.
  intros Hf. apply eq_true_iff_eq. rewrite !Qlt_bool_iff. symmetry. apply Hf.
Qed.

Lemma argmax_from_monotone (f : Q -> Q) l : forall bi best i,
  monotone f ->
  argmax_from bi (f best) i (map f l) = argmax_from bi best i l.
Proof.
  induction l as [|v l IH]; intros bi best i Hf; simpl; [reflexivity|].
  rewrite (Qlt_bool_monotone f best v Hf).
  destruct (Qlt_bool best v); now apply IH.
Qed.

Lemma argmax_monotone (f : Q -> Q) px :
  monotone f -> argmax (map f px) = argmax px.
Proof.
  intros Hf. destruct px as [|v l]; simpl; [reflexivity|].
  now rewrite argmax_from_monotone.
Qed.

Lemma mapM_map {A B C} (g : B -> option C) (h : A -> B) (g' : A -> option C)
    (l : list A) :
  (forall x, g (h x) = g' x) -> mapM g (map h l) = mapM g' l.
Proof.
  intros H. induction l as [|x l IH]; simpl; [reflexivity|].
  now rewrite H, IH.
Qed.

(** X10.  A map of the predictions that keeps their order (a positive scaling, a
    shift, any increasing function applied to every value) does not change
    the mask, nor whether [create_mask] raises. *)
Theorem create_mask_monotone (f : Q -> Q) (p : Batch) :
  monotone f -> create_mask (map_batch f p) = create_mask p.
Proof.
  intros Hf. unfold create_mask, tf_argmax, map_batch, map_values.
  rewrite (mapM_map _ _ (mapM (mapM argmax))); [reflexivity|].
  intros im. apply mapM_map. intros row. apply mapM_map. intros px.
  now apply argmax_monotone.
Qed.

Lemma create_mask_monotone_witness :
  create_mask (map_batch (fun v => 2 * v + 1)%Q [[[[0; 2; 1]%Q; [3; 3; 1]%Q]]])
  = create_mask [[[[0; 2; 1]%Q; [3; 3; 1]%Q]]].
Proof.
  apply (create_mask_monotone (fun v => 2 * v + 1)%Q).
  intros x y. split; intros H; lra.
Defined.

(** ** The datasets of [train.py] *)

Lemma chunks_go_lookup {A} (n : nat) : forall fuel (l : list A) i,
  0 < n -> length l <= fuel ->
  TrainData.chunks_go fuel n l !! i
  = if i * n <? length l then Some (take n (drop (i * n) l)) else None.
Proof.
  induction fuel as [|fuel IH]; intros l i Hn Hl.
  - destruct l; simpl in *; [|lia].
    destruct (Nat.ltb_spec (i * n) 0); [lia|]. reflexivity.
  - destruct l as [|x l].
    + simpl. destruct (Nat.ltb_spec (i * n) 0); [lia|]. reflexivity.
    + change (TrainData.chunks_go (S fuel) n (x :: l))
        with (take n (x :: l)
              :: TrainData.chunks_go fuel n (drop n (x :: l))).
      destruct i as [|i].
      * simpl. reflexivity.
      * change ((take n (x :: l) :: TrainData.chunks_go fuel n
                   (drop n (x :: l))) !! S i)
          with (TrainData.chunks_go fuel n (drop n (x :: l)) !! i).
        rewrite IH; [|exact Hn|rewrite length_drop; simpl in *; lia].
        rewrite length_drop, drop_drop.
        replace (n + i * n) with (S i * n) by lia.
        destruct (Nat.ltb_spec (i * n) (length (x :: l) - n));
          destruct (Nat.ltb_spec (S i * n) (length (x :: l)));
          try reflexivity; lia.
Qed.

(** Batch [i] holds the elements [i * batch_size], ..., as far as there are
    elements; there is no batch after the elements end. *)
Lemma chunks_lookup {A} (n : nat) (l : list A) i :
  0 < n ->
  TrainData.chunks n l !! i
  = if i * n <? length l then Some (take n (drop (i * n) l)) else None.
Proof. intros Hn. now apply chunks_go_lookup. Qed.

Lemma chunks_go_concat {A} (n : nat) : forall fuel (l : list A),
  0 < n -> length l <= fuel -> concat (TrainData.chunks_go fuel n l) = l.
Proof.
  induction fuel as [|fuel IH]; intros l Hn Hl.
  - destruct l; simpl in *; [reflexivity|lia].
  - destruct l as [|x l]; [reflexivity|].
    change (TrainData.chunks_go (S fuel) n (x :: l))
      with (take n (x :: l) :: TrainData.chunks_go fuel n (drop n (x :: l))).
    simpl concat. rewrite IH; [apply take_drop|exact Hn|].
    rewrite length_drop. simpl in *. lia.
Qed.

Lemma chunks_concat {A} (n : nat) (l : list A) :
  0 < n -> concat (TrainData.chunks n l) = l.
Proof. intros Hn. now apply chunks_go_concat. Qed.

Lemma chunks_sizes {A} (n : nat) (l : list A) :
  0 < n -> Forall (fun b => 1 <= length b <= n) (TrainData.chunks n l).
Proof.
  intros Hn. apply Forall_lookup. intros i b Hb.
  rewrite chunks_lookup in Hb by exact Hn.
  destruct (Nat.ltb_spec (i * n) (length l)); [|discriminate].
  injection Hb as <-. rewrite length_take, length_drop. lia.
Qed.

Lemma shuffle_go_Permutation {A} (pick : nat -> nat) :
  forall fuel k (buffer rest : list A),
    length buffer + length rest <= fuel ->
    (buffer = [] -> rest = []) ->
    TrainData.shuffle_go pick k fuel buffer rest ≡ₚ buffer ++ rest.
Proof.
  induction fuel as [|fuel IH]; intros k buffer rest Hlen Hne.
  - destruct buffer, rest; simpl in *; try lia. reflexivity.
  - destruct buffer as [|b0 buffer'].
    { rewrite (Hne eq_refl). reflexivity. }
    set (buffer := b0 :: buffer') in *.
    assert (Hi : pick k mod length buffer < length buffer)
      by (apply Nat.mod_upper_bound; discriminate).
    set (i := pick k mod length buffer) in *.
    destruct (lookup_lt_is_Some_2 buffer i Hi) as [x Hx].
    assert (Hnth : nth i buffer b0 = x) by now apply nth_lookup_Some.
    destruct rest as [|y rest'].
    + change (TrainData.shuffle_go pick k (S fuel) buffer [])
        with (nth i buffer b0
              :: TrainData.shuffle_go pick (S k) fuel (delete i buffer) []).
      rewrite Hnth, IH.
      * rewrite !app_nil_r. symmetry. now apply delete_Permutation.
      * pose proof (length_delete buffer i ltac:(eauto)). simpl in *. lia.
      * reflexivity.
    + change (TrainData.shuffle_go pick k (S fuel) buffer (y :: rest'))
        with (nth i buffer b0
              :: TrainData.shuffle_go pick (S k) fuel (<[i := y]> buffer)
                   rest').
      rewrite Hnth, IH.
      * rewrite insert_take_drop by exact Hi.
        transitivity ((x :: take i buffer ++ drop (S i) buffer)
                      ++ y :: rest').
        -- simpl. constructor. rewrite <- !app_assoc. simpl.
           apply Permutation_app_head, Permutation_middle.
        -- apply Permutation_app_tail.
           rewrite <- (take_drop_middle buffer i x Hx) at 3.
           apply Permutation_middle.
      * rewrite length_insert. simpl in *. lia.
      * intros E. apply (f_equal length) in E. rewrite length_insert in E.
        discriminate.
Qed.

(** Shuffling loses and repeats no element, whatever the buffer picks. *)
Lemma shuffle_Permutation {A} (buffer_size : nat) (pick : nat -> nat)
    (ds : list A) :
  0 < buffer_size -> TrainData.shuffle buffer_size pick ds ≡ₚ ds.
Proof.
  intros Hb. unfold TrainData.shuffle.
  rewrite shuffle_go_Permutation.
  - now rewrite take_drop.
  - rewrite length_take, length_drop. lia.
  - intros E. destruct ds as [|x ds]; [now rewrite drop_nil|].
    destruct buffer_size; [lia|discriminate].
Qed.

Lemma train_augment_cases (u : Q) (img mask : Tensor) :
  Train.augment u img mask = (img, mask) \/
  Train.augment u img mask = (flip_left_right img, flip_left_right mask).
Proof. unfold Train.augment. destruct (Qlt_bool _ _); auto. Qed.

Lemma imap_augmented (draw : nat -> Q) (ds : list (Tensor * Tensor)) :
  Forall2 augmented ds (TrainData.map_augment draw ds).
Proof.
  unfold TrainData.map_augment. revert draw.
  induction ds as [|[img mask] ds IH]; intros draw; [constructor|].
  simpl. constructor.
  - unfold augmented. simpl.
    destruct (train_augment_cases (draw 0) img mask) as [E|E];
      rewrite E; auto.
  - apply (IH (fun i => draw (S i))).
Qed.

Lemma full_batches (n bs i : nat) : 0 < bs -> i < n / bs -> i * bs + bs <= n.
Proof.
  intros Hb Hi. pose proof (Nat.div_mod_eq n bs) as E. nia.
Qed.

(** *** Batches of examples of one shape *)

Lemma tensor_shape_of t h w c :
  has_shape h w c t -> 0 < h -> 0 < w -> TrainData.tensor_shape t = (h, w, c).
Proof.
  intros Hs Hh Hw. unfold TrainData.tensor_shape.
  rewrite (width_of_shape _ _ _ _ Hs Hh), (channels_of_shape _ _ _ _ Hs Hh Hw).
  unfold height. now destruct Hs as [[-> _] _].
Qed.

Lemma shaped_example_shape ci cm ex :
  shaped ci cm ex ->
  TrainData.example_shape ex = ((128, 128, ci), (128, 128, cm)).
Proof.
  intros [Hi Hm]. unfold TrainData.example_shape.
  now rewrite (tensor_shape_of _ _ _ _ Hi), (tensor_shape_of _ _ _ _ Hm)
    by lia.
Qed.

Lemma stack_shaped ci cm b :
  Forall (shaped ci cm) b -> TrainData.stack b = Some b.
Proof.
  intros H. destruct b as [|x rest]; [reflexivity|]. simpl.
  inversion H as [|? ? Hx Hrest]; subst.
  rewrite (proj2 (forallb_forall _ rest)); [reflexivity|].
  intros y Hy. apply bool_decide_eq_true.
  rewrite Forall_forall in Hrest.
  rewrite (shaped_example_shape _ _ _ Hx).
  apply shaped_example_shape, Hrest, list_elem_of_In, Hy.
Qed.

Lemma stack_Some b b' : TrainData.stack b = Some b' -> b' = b.
Proof.
  destruct b as [|x rest]; simpl; [congruence|].
  destruct (forallb _ rest); congruence.
Qed.

(** Stacking succeeds on examples of one shape only. *)
Lemma stack_same_shape b b' x y :
  TrainData.stack b = Some b' -> x ∈ b -> y ∈ b ->
  TrainData.example_shape x = TrainData.example_shape y.
Proof.
  destruct b as [|z rest]; simpl; [intros _ H; inversion H|].
  destruct (forallb _ rest) eqn:E; [|discriminate]. intros _.
  rewrite forallb_forall in E.
  assert (Hz : forall v, v ∈ z :: rest ->
            TrainData.example_shape v = TrainData.example_shape z).
  { intros v Hv. apply list_elem_of_In in Hv as [<-|Hv]; [reflexivity|].
    apply E in Hv. now apply bool_decide_eq_true in Hv. }
  intros Hx Hy. now rewrite (Hz x Hx), (Hz y Hy).
Qed.

Lemma batch_Some n l bs :
  TrainData.batch n l = Some bs -> bs = TrainData.chunks n l.
Proof.
  unfold TrainData.batch. intros H. apply mapM_Some in H.
  induction H as [|c b cs bs' Hc _ IH]; [reflexivity|].
  apply stack_Some in Hc. now subst.
Qed.

Lemma chunks_Forall {A} (P : A -> Prop) n (l : list A) :
  0 < n -> Forall P l -> Forall (Forall P) (TrainData.chunks n l).
Proof.
  intros Hn H. apply Forall_lookup. intros i c Hc.
  rewrite chunks_lookup in Hc by exact Hn.
  destruct (_ <? _); [|discriminate]. injection Hc as <-.
  now apply Forall_take, Forall_drop.
Qed.

Lemma batch_shaped ci cm n l :
  0 < n -> Forall (shaped ci cm) l ->
  TrainData.batch n l = Some (TrainData.chunks n l).
Proof.
  intros Hn H. unfold TrainData.batch. apply mapM_Some.
  pose proof (chunks_Forall _ n l Hn H) as Hc.
  induction Hc as [|c cs Hc _ IH]; constructor; [|exact IH].
  now apply (stack_shaped ci cm).
Qed.

Lemma preprocessed_shaped ci cm l pre :
  same_channels ci cm l ->
  mapM Train.read_and_preprocess l = Some pre ->
  Forall (shaped ci cm) pre.
Proof.
  intros Hs Hp. apply mapM_Some in Hp.
  induction Hp as [|d [im mk] l pre Hd _ IH]; [constructor|].
  inversion Hs as [|? ? [Hci Hcm] Hs']; subst.
  constructor; [|now apply IH].
  destruct (read_and_preprocess_has_shape d im mk Hd) as [Hi Hm].
  split; assumption.
Qed.

Lemma augmented_shaped ci cm o a :
  augmented o a -> shaped ci cm o -> shaped ci cm a.
Proof.
  intros [->| ->] [[Hi Hic] [Hm Hmc]]; [now split|].
  split; split; simpl;
    auto using flip_left_right_spatial, flip_left_right_channels.
Qed.

Lemma augmented_all_shaped ci cm pre aug :
  Forall2 augmented pre aug -> Forall (shaped ci cm) pre ->
  Forall (shaped ci cm) aug.
Proof.
  induction 1 as [|o a pre aug Ha _ IH]; intros H; [constructor|].
  inversion H; subst. constructor; [|now apply IH].
  now apply (augmented_shaped ci cm o).
Qed.

(** X11.  [create_train_test_datasets] raises exactly when a split is missing or
    the batch size is zero. *)
Theorem create_train_test_datasets_raises_iff
    (dataset : gmap string (list Data)) (batch_size : nat) :
  TrainData.create_train_test_datasets dataset batch_size = None <->
  dataset !! "train" = None \/ dataset !! "test" = None \/ batch_size = 0.
Proof.
  unfold TrainData.create_train_test_datasets.
  destruct (dataset !! "train") as [train|]; simpl; [|tauto].
  destruct (dataset !! "test") as [test|]; simpl; [|tauto].
  destruct (Nat.eqb_spec batch_size 0); split; auto; try discriminate.
  intros [?|[?|?]]; congruence.
Qed.

(** X12.  For test records that all have the same numbers of channels and can
    be preprocessed, the test dataset holds the preprocessed records in
    their order, not augmented, in batches: batch [i] is made of the records
    from position [i * batch_size] on, at most [batch_size] of them.  The
    first [len(test) // batch_size] batches, the ones the validation steps
    read, are full; a last batch of the remaining records is never read by
    them. *)
Theorem test_ds_batches (dataset : gmap string (list Data)) (batch_size : nat)
    (train_ds : TrainData.TrainDs)
    (test_ds : option (list (list (Tensor * Tensor))))
    (test : list Data) (pre : list (Tensor * Tensor)) (ci cm : nat) :
  TrainData.create_train_test_datasets dataset batch_size
    = Some (train_ds, test_ds) ->
  dataset !! "test" = Some test ->
  same_channels ci cm test ->
  mapM Train.read_and_preprocess test = Some pre ->
  exists batches,
    test_ds = Some batches /\
    concat batches = pre /\
    (forall i, batches !! i
               = if i * batch_size <? length test
                 then Some (take batch_size (drop (i * batch_size) pre))
                 else None) /\
    Forall (fun b => 1 <= length b <= batch_size) batches /\
    (forall i, i < length test / batch_size ->
       exists b, batches !! i = Some b /\ length b = batch_size).
Proof.
  unfold TrainData.create_train_test_datasets. intros H Ht Hs Hp.
  destruct (dataset !! "train") as [train|]; simpl in H; [|discriminate].
  rewrite Ht in H. simpl in H.
  destruct (Nat.eqb_spec batch_size 0) as [|Hb]; [discriminate|].
  injection H as _ <-. unfold TrainData.ds_map. rewrite Hp. simpl.
  assert (Hlen : length pre = length test)
    by (symmetry; eapply length_mapM, Hp).
  assert (Hpos : 0 < batch_size) by lia.
  rewrite (batch_shaped ci cm) by eauto using preprocessed_shaped.
  eexists. split; [reflexivity|]. split; [now apply chunks_concat|].
  split; [|split].
  - intros i. rewrite chunks_lookup by exact Hpos. now rewrite Hlen.
  - now apply chunks_sizes.
  - intros i Hi. pose proof (full_batches _ _ _ Hpos Hi) as Hfull.
    rewrite chunks_lookup by exact Hpos.
    destruct (Nat.ltb_spec (i * batch_size) (length pre)); [|lia].
    eexists. split; [reflexivity|].
    rewrite length_take, length_drop. lia.
Qed.

Lemma white_records_same_channels n :
  same_channels 3 1 (repeat white_record n).
Proof.
  apply Forall_forall. intros d Hd.
  apply list_elem_of_In, repeat_spec in Hd. subst. split; reflexivity.
Qed.

Lemma test_ds_batches_witness :
  exists train_ds test_ds pre batches,
    TrainData.create_train_test_datasets small_dataset 2
      = Some (train_ds, test_ds) /\
    mapM Train.read_and_preprocess [white_record; white_record; white_record]
      = Some pre /\
    test_ds = Some batches /\
    concat batches = pre /\
    (forall i, batches !! i
               = if i * 2 <? 3
                 then Some (take 2 (drop (i * 2) pre))
                 else None) /\
    Forall (fun b => 1 <= length b <= 2) batches /\
    (forall i, i < 3 / 2 ->
       exists b, batches !! i = Some b /\ length b = 2).
Proof.
  destruct (test_ds_batches small_dataset 2
              (fun rand e =>
                 cached ← TrainData.ds_map Train.read_and_preprocess
                            [white_record; white_record];
                 TrainData.batch 2
                   (TrainData.shuffle (10 * 2)
                      (TrainData.pick (rand e))
                      (TrainData.map_augment (TrainData.draw (rand e))
                         cached)))
              (preprocessed ← TrainData.ds_map Train.read_and_preprocess
                                [white_record; white_record; white_record];
               TrainData.batch 2 preprocessed)
              [white_record; white_record; white_record]
              _ 3 1 eq_refl eq_refl (white_records_same_channels 3) eq_refl)
    as [batches H].
  eexists _, _, _, batches. split; [reflexivity|]. split; [reflexivity|].
  exact H.
Defined.

(** X13.  One iteration over the training dataset, for training records that
    all have the same numbers of channels and can be preprocessed, whatever
    the draws and the picks of that iteration: its batches, put end to end,
    are a rearrangement of the preprocessed training records, each of them
    once, as it is or mirrored (image and mask together); every batch holds
    between one and [batch_size] examples, and there are at least
    [len(train) // batch_size] batches, the steps of one epoch. *)
Theorem train_ds_iteration (dataset : gmap string (list Data))
    (batch_size : nat) (train_ds : TrainData.TrainDs)
    (test_ds : option (list (list (Tensor * Tensor))))
    (train : list Data) (pre : list (Tensor * Tensor))
    (rand : nat -> TrainData.Rand) (e : nat) (ci cm : nat) :
  TrainData.create_train_test_datasets dataset batch_size
    = Some (train_ds, test_ds) ->
  dataset !! "train" = Some train ->
  same_channels ci cm train ->
  mapM Train.read_and_preprocess train = Some pre ->
  exists batches aug,
    train_ds rand e = Some batches /\
    Forall2 augmented pre aug /\
    concat batches ≡ₚ aug /\
    length (concat batches) = length train /\
    Forall (fun b => 1 <= length b <= batch_size) batches /\
    length train / batch_size <= length batches.
Proof.
  unfold TrainData.create_train_test_datasets. intros H Ht Hs Hp.
  rewrite Ht in H. simpl in H.
  destruct (dataset !! "test") as [test|]; simpl in H; [|discriminate].
  destruct (Nat.eqb_spec batch_size 0) as [|Hb]; [discriminate|].
  injection H as <- _. unfold TrainData.ds_map. rewrite Hp. simpl.
  assert (Hpos : 0 < batch_size) by lia.
  assert (Hlen : length pre = length train)
    by (symmetry; eapply length_mapM, Hp).
  set (aug := TrainData.map_augment (TrainData.draw (rand e)) pre).
  set (sh := TrainData.shuffle (10 * batch_size) (TrainData.pick (rand e)) aug).
  assert (Hperm : sh ≡ₚ aug) by (apply shuffle_Permutation; lia).
  assert (Haug : Forall2 augmented pre aug) by apply imap_augmented.
  assert (Hsh : length sh = length train).
  { rewrite Hperm, <- Hlen. symmetry. eapply Forall2_length, Haug. }
  assert (Hshaped : Forall (shaped ci cm) sh).
  { rewrite Hperm. eapply augmented_all_shaped; [exact Haug|].
    eapply preprocessed_shaped; eassumption. }
  rewrite (batch_shaped ci cm) by assumption.
  exists (TrainData.chunks batch_size sh), aug.
  split; [reflexivity|]. split; [exact Haug|].
  rewrite chunks_concat by exact Hpos.
  split; [exact Hperm|]. split; [exact Hsh|].
  split; [now apply chunks_sizes|].
  destruct (Nat.le_gt_cases (length train / batch_size)
              (length (TrainData.chunks batch_size sh))) as [|Hlt];
    [assumption|].
  exfalso.
  pose proof (full_batches _ _ _ Hpos Hlt) as Hfull.
  pose proof (chunks_lookup batch_size sh
                (length (TrainData.chunks batch_size sh)) Hpos) as Hl.
  rewrite lookup_ge_None_2 in Hl by lia.
  destruct (Nat.ltb_spec (length (TrainData.chunks batch_size sh) * batch_size)
              (length sh)); [discriminate|lia].
Qed.

Lemma train_ds_iteration_witness :
  exists train_ds test_ds pre batches aug,
    TrainData.create_train_test_datasets small_dataset 2
      = Some (train_ds, test_ds) /\
    mapM Train.read_and_preprocess [white_record; white_record] = Some pre /\
    train_ds fixed_rand 1 = Some batches /\
    Forall2 augmented pre aug /\
    concat batches ≡ₚ aug /\
    length (concat batches) = length [white_record; white_record] /\
    Forall (fun b => 1 <= length b <= 2) batches /\
    length [white_record; white_record] / 2 <= length batches.
Proof.
  destruct (train_ds_iteration small_dataset 2
              (fun rand e =>
                 cached ← TrainData.ds_map Train.read_and_preprocess
                            [white_record; white_record];
                 TrainData.batch 2
                   (TrainData.shuffle (10 * 2)
                      (TrainData.pick (rand e))
                      (TrainData.map_augment (TrainData.draw (rand e))
                         cached)))
              (preprocessed ← TrainData.ds_map Train.read_and_preprocess
                                [white_record; white_record; white_record];
               TrainData.batch 2 preprocessed)
              [white_record; white_record]
              _ fixed_rand 1 3 1 eq_refl eq_refl
              (white_records_same_channels 2) eq_refl)
    as (batches & aug & H).
  eexists _, _, _, batches, aug. split; [reflexivity|]. split; [reflexivity|].
  exact H.
Defined.

(** X15.  For splits whose records all have the same numbers of channels,
    iterating over the training dataset, or over the test dataset, raises
    exactly when a record of the split has an image or a mask without
    rows, without columns or without channels. *)
Theorem datasets_raise_iff (dataset : gmap string (list Data))
    (batch_size : nat) (train_ds : TrainData.TrainDs)
    (test_ds : option (list (list (Tensor * Tensor))))
    (train test : list Data) (ci cm ci' cm' : nat) :
  TrainData.create_train_test_datasets dataset batch_size
    = Some (train_ds, test_ds) ->
  dataset !! "train" = Some train ->
  dataset !! "test" = Some test ->
  same_channels ci cm train ->
  same_channels ci' cm' test ->
  (forall rand e, train_ds rand e = None <-> Exists empty_record train) /\
  (test_ds = None <-> Exists empty_record test).
Proof.
  unfold TrainData.create_train_test_datasets. intros H Htr Hte Hs Hs'.
  rewrite Htr, Hte in H. simpl in H.
  destruct (Nat.eqb_spec batch_size 0) as [|Hb]; [discriminate|].
  assert (Hpos : 0 < batch_size) by lia.
  injection H as <- <-. unfold TrainData.ds_map.
  assert (Hm : forall l : list Data,
            mapM Train.read_and_preprocess l = None <->
            Exists empty_record l).
  { intros l. rewrite mapM_None.
    split; intros H; (eapply Exists_impl; [exact H|]); intros d;
      apply (read_and_preprocess_None d). }
  split.
  - intros rand e. rewrite <- Hm.
    destruct (mapM Train.read_and_preprocess train) as [pre|] eqn:Hp; simpl;
      [|tauto].
    rewrite (batch_shaped ci cm); [split; discriminate|exact Hpos|].
    rewrite shuffle_Permutation by lia.
    eapply augmented_all_shaped; [apply imap_augmented|].
    eapply preprocessed_shaped; eassumption.
  - rewrite <- Hm.
    destruct (mapM Train.read_and_preprocess test) as [pre|] eqn:Hp; simpl;
      [|tauto].
    rewrite (batch_shaped ci' cm'); [split; discriminate|exact Hpos|].
    eapply preprocessed_shaped; eassumption.
Qed.

Lemma datasets_raise_iff_witness :
  exists train_ds test_ds,
    TrainData.create_train_test_datasets small_dataset 2
      = Some (train_ds, test_ds) /\
    (forall rand e, train_ds rand e = None <->
                    Exists empty_record [white_record; white_record]) /\
    (test_ds = None <->
     Exists empty_record [white_record; white_record; white_record]).
Proof.
  eexists _, _. split; [reflexivity|].
  apply (datasets_raise_iff small_dataset 2 _ _ _ _ 3 1 3 1);
    try reflexivity.
  - apply (white_records_same_channels 2).
  - apply (white_records_same_channels 3).
Defined.

(** X22.  A batch of the test dataset that holds two records whose numbers of
    channels differ cannot be stacked: iterating over the test dataset
    raises. *)
Theorem test_ds_mixed_channels (dataset : gmap string (list Data))
    (batch_size : nat) (train_ds : TrainData.TrainDs)
    (test_ds : option (list (list (Tensor * Tensor))))
    (test : list Data) (i : nat) (a b : Data) :
  TrainData.create_train_test_datasets dataset batch_size
    = Some (train_ds, test_ds) ->
  dataset !! "test" = Some test ->
  a ∈ take batch_size (drop (i * batch_size) test) ->
  b ∈ take batch_size (drop (i * batch_size) test) ->
  (channels (image a), channels (segmentation_mask a))
  <> (channels (image b), channels (segmentation_mask b)) ->
  test_ds = None.
Proof.
  unfold TrainData.create_train_test_datasets. intros H Ht Ha Hb Hne.
  destruct (dataset !! "train") as [train|]; simpl in H; [|discriminate].
  rewrite Ht in H. simpl in H.
  destruct (Nat.eqb_spec batch_size 0) as [|Hbs]; [discriminate|].
  assert (Hpos : 0 < batch_size) by lia.
  injection H as _ <-. unfold TrainData.ds_map.
  destruct (mapM Train.read_and_preprocess test) as [pre|] eqn:Hp; simpl;
    [|reflexivity].
  destruct (TrainData.batch batch_size pre) as [bs|] eqn:Hbatch;
    [|reflexivity].
  exfalso. apply Hne. clear Hne.
  pose proof (batch_Some _ _ _ Hbatch) as ->.
  unfold TrainData.batch in Hbatch. apply mapM_Some in Hbatch.
  apply mapM_Some in Hp.
  assert (Hc : Forall2 (fun d ex => Train.read_and_preprocess d = Some ex)
                 (take batch_size (drop (i * batch_size) test))
                 (take batch_size (drop (i * batch_size) pre)))
    by now apply Forall2_take, Forall2_drop.
  apply list_elem_of_lookup in Ha as [ja Hja].
  apply list_elem_of_lookup in Hb as [jb Hjb].
  destruct (Forall2_lookup_l _ _ _ _ _ Hc Hja) as ([ia ma] & Hxa & Hra).
  destruct (Forall2_lookup_l _ _ _ _ _ Hc Hjb) as ([ib mb] & Hxb & Hrb).
  assert (Hi : i * batch_size < length pre).
  { destruct (Nat.lt_ge_cases (i * batch_size) (length pre)) as [|Hge];
      [assumption|].
    rewrite drop_ge, take_nil in Hxa by exact Hge. discriminate. }
  pose proof (chunks_lookup batch_size pre i Hpos) as Hck.
  destruct (Nat.ltb_spec (i * batch_size) (length pre)); [|lia].
  destruct (Forall2_lookup_l _ _ _ _ _ Hbatch Hck) as (c & _ & Hstack).
  pose proof (stack_same_shape _ _ _ _ Hstack
                (list_elem_of_lookup_2 _ _ _ Hxa)
                (list_elem_of_lookup_2 _ _ _ Hxb)) as E.
  destruct (read_and_preprocess_has_shape a ia ma Hra) as [Hia Hma].
  destruct (read_and_preprocess_has_shape b ib mb Hrb) as [Hib Hmb].
  unfold TrainData.example_shape in E. simpl in E.
  rewrite (tensor_shape_of _ _ _ _ Hia), (tensor_shape_of _ _ _ _ Hma),
    (tensor_shape_of _ _ _ _ Hib), (tensor_shape_of _ _ _ _ Hmb) in E by lia.
  congruence.
Qed.

Lemma test_ds_mixed_channels_witness :
  exists train_ds test_ds,
    TrainData.create_train_test_datasets mixed_dataset 2
    = Some (train_ds, test_ds) /\
    test_ds = None.
Proof.
  eexists _, _. split; [reflexivity|].
  eapply (test_ds_mixed_channels mixed_dataset 2 _ _
            [white_record; gray_record] 0 white_record gray_record).
  - reflexivity.
  - reflexivity.
  - apply list_elem_of_In. simpl. auto.
  - apply list_elem_of_In. simpl. auto.
  - simpl. discriminate.
Defined.

(** ** How far the shuffle buffer moves an example *)

Lemma shuffle_go_window {A} (pick : nat -> nat) (l : list A) (B : nat) :
  forall fuel k buffer,
    Forall (fun x => exists j, j < k + B /\ l !! j = Some x) buffer ->
    forall t x,
      TrainData.shuffle_go pick k fuel buffer (drop (k + B) l) !! t = Some x ->
      exists j, j < k + t + B /\ l !! j = Some x.
Proof.
  induction fuel as [|fuel IH]; intros k buffer Hbuf t x Hx.
  - destruct t; discriminate.
  - destruct buffer as [|b0 buffer']; [destruct t; discriminate|].
    set (buffer := b0 :: buffer') in *.
    assert (Hi : pick k mod length buffer < length buffer)
      by (apply Nat.mod_upper_bound; discriminate).
    set (i := pick k mod length buffer) in *.
    destruct (lookup_lt_is_Some_2 buffer i Hi) as [x0 Hx0].
    assert (Hnth : nth i buffer b0 = x0) by now apply nth_lookup_Some.
    assert (Hweak : Forall (fun x => exists j, j < S k + B /\ l !! j = Some x)
                      buffer).
    { eapply Forall_impl; [exact Hbuf|]. intros z (j & Hj & Hz).
      exists j. split; [lia|exact Hz]. }
    destruct (l !! (k + B)) as [y|] eqn:Ey.
    + rewrite (drop_S _ _ _ Ey) in Hx.
      change (TrainData.shuffle_go pick k (S fuel) buffer
                (y :: drop (S (k + B)) l))
        with (nth i buffer b0
              :: TrainData.shuffle_go pick (S k) fuel (<[i := y]> buffer)
                   (drop (S k + B) l)) in Hx.
      rewrite Hnth in Hx. destruct t as [|t].
      * injection Hx as <-.
        destruct (Forall_lookup_1 _ _ _ _ Hbuf Hx0) as (j & Hj & Hz).
        exists j. split; [lia|exact Hz].
      * change ((x0 :: TrainData.shuffle_go pick (S k) fuel
                          (<[i := y]> buffer) (drop (S k + B) l)) !! S t)
          with (TrainData.shuffle_go pick (S k) fuel
                  (<[i := y]> buffer) (drop (S k + B) l) !! t) in Hx.
        apply IH in Hx.
        -- destruct Hx as (j & Hj & Hz). exists j. split; [lia|exact Hz].
        -- apply Forall_insert; [exact Hweak|].
           exists (k + B). split; [lia|exact Ey].
    + apply lookup_ge_None in Ey.
      rewrite (drop_ge l (k + B)) in Hx by exact Ey.
      change (TrainData.shuffle_go pick k (S fuel) buffer [])
        with (nth i buffer b0
              :: TrainData.shuffle_go pick (S k) fuel (delete i buffer) [])
        in Hx.
      rewrite Hnth in Hx. destruct t as [|t].
      * injection Hx as <-.
        destruct (Forall_lookup_1 _ _ _ _ Hbuf Hx0) as (j & Hj & Hz).
        exists j. split; [lia|exact Hz].
      * change ((x0 :: TrainData.shuffle_go pick (S k) fuel
                          (delete i buffer) []) !! S t)
          with (TrainData.shuffle_go pick (S k) fuel
                  (delete i buffer) [] !! t) in Hx.
        rewrite <- (drop_ge l (S k + B)) in Hx by (simpl; lia).
        apply IH in Hx.
        -- destruct Hx as (j & Hj & Hz). exists j. split; [lia|exact Hz].
        -- apply Forall_delete. exact Hweak.
Qed.

(** The element that shuffling puts at position [t] stood before position
    [t + buffer_size] in the input. *)
Lemma shuffle_window {A} (buffer_size : nat) (pick : nat -> nat)
    (ds : list A) (t : nat) (x : A) :
  TrainData.shuffle buffer_size pick ds !! t = Some x ->
  exists j, j < t + buffer_size /\ ds !! j = Some x.
Proof.
  unfold TrainData.shuffle. intros H.
  apply (shuffle_go_window pick ds buffer_size (length ds) 0) in H;
    [exact H|].
  apply Forall_lookup. intros j z Hz.
  apply lookup_take_Some in Hz as [Hz Hj].
  exists j. split; [simpl; lia|exact Hz].
Qed.

(** X14.  The shuffle buffer of ten batches bounds how far an example moves
    forward: the example at position [i] of batch [b] of an iteration over
    the training dataset is a training record, preprocessed and augmented,
    that stands before position [b * batch_size + i + 10 * batch_size] of
    the training split.  So the first batch is drawn from the first eleven
    batch sizes of records only. *)
Theorem train_ds_shuffle_window (dataset : gmap string (list Data))
    (batch_size : nat) (train_ds : TrainData.TrainDs)
    (test_ds : option (list (list (Tensor * Tensor))))
    (train : list Data) (rand : nat -> TrainData.Rand) (e : nat)
    (batches : list (list (Tensor * Tensor)))
    (b i : nat) (bt : list (Tensor * Tensor)) (x : Tensor * Tensor) :
  TrainData.create_train_test_datasets dataset batch_size
    = Some (train_ds, test_ds) ->
  dataset !! "train" = Some train ->
  train_ds rand e = Some batches ->
  batches !! b = Some bt ->
  bt !! i = Some x ->
  exists j d o,
    j < b * batch_size + i + 10 * batch_size /\
    train !! j = Some d /\
    Train.read_and_preprocess d = Some o /\
    augmented o x.
Proof.
  unfold TrainData.create_train_test_datasets. intros H Ht Hr Hb Hi.
  rewrite Ht in H. simpl in H.
  destruct (dataset !! "test") as [test|]; simpl in H; [|discriminate].
  destruct (Nat.eqb_spec batch_size 0) as [|Hpos]; [discriminate|].
  injection H as <- _. unfold TrainData.ds_map in Hr.
  destruct (mapM Train.read_and_preprocess train) as [pre|] eqn:Hp;
    simpl in Hr; [|discriminate].
  apply batch_Some in Hr as ->.
  rewrite chunks_lookup in Hb by lia.
  match type of Hb with
  | (if ?c then _ else _) = _ => destruct c; [|discriminate]
  end.
  injection Hb as <-.
  apply lookup_take_Some in Hi as [Hi Hlt].
  rewrite lookup_drop in Hi.
  apply shuffle_window in Hi as (j & Hj & Hx).
  destruct (Forall2_lookup_r _ _ _ _ _ (imap_augmented _ pre) Hx)
    as (o & Ho & Haug).
  apply mapM_Some in Hp.
  destruct (Forall2_lookup_r _ _ _ _ _ Hp Ho) as (d & Hd & Hdo).
  exists j, d, o. repeat split; [lia|exact Hd|exact Hdo|exact Haug].
Qed.

Lemma train_ds_shuffle_window_witness :
  exists j d o x,
    j < 0 * 2 + 1 + 10 * 2 /\
    [white_record; white_record] !! j = Some d /\
    Train.read_and_preprocess d = Some o /\
    augmented o x.
Proof.
  destruct (train_ds_shuffle_window small_dataset 2
              (fun rand e =>
                 cached ← TrainData.ds_map Train.read_and_preprocess
                            [white_record; white_record];
                 TrainData.batch 2
                   (TrainData.shuffle (10 * 2)
                      (TrainData.pick (rand e))
                      (TrainData.map_augment (TrainData.draw (rand e))
                         cached)))
              (preprocessed ← TrainData.ds_map Train.read_and_preprocess
                                [white_record; white_record; white_record];
               TrainData.batch 2 preprocessed)
              [white_record; white_record] fixed_rand 1 _ 0 1 _ _
              eq_refl eq_refl eq_refl eq_refl eq_refl)
    as (j & d & o & H).
  exists j, d, o. eexists. exact H.
Defined.

(** ** [build_unet]: the inputs it refuses *)

Lemma obtain_input_shape_None h w c :
  MobileNetV2.obtain_input_shape (h, w, c) 32 = None <->
  c <> 3 \/ h < 32 \/ w < 32.
Proof.
  unfold MobileNetV2.obtain_input_shape.
  destruct (Nat.eqb_spec c 3) as [Hc|Hc]; simpl.
  - destruct (Nat.ltb_spec h 32); destruct (Nat.ltb_spec w 32); simpl;
      split; auto; try discriminate; intros [?|[?|?]]; lia.
  - split; auto.
Qed.

(** X16.  [build_unet] raises on an input shape that has not three channels or
    has a side under 32: the pretrained backbone takes no such input. *)
Theorem build_unet_refuses_input (init : string -> list Q) (h w c : nat)
    (output_channels : nat) :
  c <> 3 \/ h < 32 \/ w < 32 ->
  run (Train.build_unet init (h, w, c) output_channels) = None.
Proof.
  intros H. apply obtain_input_shape_None in H.
  unfold run, Train.build_unet, MobileNetV2.MobileNetV2.
  unfold mbind at 1. unfold M_bind. unfold mbind at 1. unfold M_bind.
  unfold lift at 1. rewrite H. reflexivity.
Qed.

Lemma build_unet_refuses_input_witness :
  run (Train.build_unet ones (28, 28, 1) 10) = None.
Proof.
  apply (build_unet_refuses_input ones 28 28 1 10). left. discriminate.
Defined.

Lemma bind_raises {A B} (c : M A) (f : A -> M B) :
  (forall a g, f a g = None) -> forall g, (c ≫= f) g = None.
Proof.
  intros H g. unfold mbind, M_bind. destruct (c g) as [[a g']|]; auto.
Qed.

(** X23.  [build_unet] raises when [output_channels] is zero, whatever the input
    shape: the last transposed convolution cannot be made without
    filters. *)
Theorem build_unet_refuses_no_channel (init : string -> list Q)
    (input_shape : Shape) :
  run (Train.build_unet init input_shape 0) = None.
Proof.
  assert (H : forall g, Train.build_unet init input_shape 0 g = None).
  { unfold Train.build_unet.
    do 11 (apply bind_raises; intros ?; cbv beta zeta).
    intros g. reflexivity. }
  unfold run. now rewrite H.
Qed.

(** ** [build_unet]: the decoder is trainable *)

Section Trainable.

Variable init : string -> list Q.

Lemma unique_object_name_created prefix zero_based g name g' :
  unique_object_name prefix zero_based g = Some (name, g') ->
  created g' = created g.
Proof. unfold unique_object_name. now intros [= _ <-]. Qed.

Lemma new_layer_trainable name o :
  hoare decoder_trainable (new_layer init name o)
    (fun l g => decoder_trainable g /\ is_trainable l).
Proof.
  intros g l g' HI. unfold new_layer.
  destruct (valid_args o); [|discriminate].
  unfold mbind, M_bind.
  destruct name as [n|].
  - intros [= <- <-]. split; [exact HI|reflexivity].
  - destruct (unique_object_name _ _ g) as [[nm g1]|] eqn:E; [|discriminate].
    apply unique_object_name_created in E.
    intros [= <- <-]. split; [|reflexivity].
    unfold decoder_trainable in *. now rewrite E.
Qed.

Lemma add_node_trainable n :
  (node_name n <> "pretrained_mobilenet" ->
   Forall is_trainable (node_layers n)) ->
  hoare decoder_trainable (add_node n) (fun _ g => decoder_trainable g).
Proof.
  intros Hn g a g' HI [= _ <-]. unfold decoder_trainable in *. simpl.
  apply Forall_app. split; [exact HI|]. constructor; [exact Hn|constructor].
Qed.

Lemma call_trainable l xs :
  is_trainable l ->
  hoare decoder_trainable (call l xs) (fun _ g => decoder_trainable g).
Proof.
  intros Hl. unfold call.
  eapply hoare_bind; [apply hoare_lift|]. intros s. simpl.
  eapply hoare_bind with (Q := fun _ g => decoder_trainable g);
    [|intros []; apply hoare_ret].
  apply add_node_trainable. simpl. intros _. now constructor.
Qed.

Lemma layer_trainable name o xs :
  hoare decoder_trainable (layer init name o xs)
    (fun _ g => decoder_trainable g).
Proof.
  unfold layer. eapply hoare_bind; [apply new_layer_trainable|].
  intros l g a g' [HI Hl]. now apply call_trainable.
Qed.

Lemma call_sequential_trainable u x :
  Forall is_trainable (seq_layers u) ->
  hoare decoder_trainable (call_sequential u x)
    (fun _ g => decoder_trainable g).
Proof.
  intros Hu. unfold call_sequential.
  eapply hoare_bind; [apply hoare_lift|]. intros s. simpl.
  eapply hoare_bind with (Q := fun _ g => decoder_trainable g);
    [|intros []; apply hoare_ret].
  apply add_node_trainable. simpl. intros _. exact Hu.
Qed.

Lemma call_model_encoder m x :
  model_name m = "pretrained_mobilenet" ->
  hoare decoder_trainable (call_model m x) (fun _ g => decoder_trainable g).
Proof.
  intros Hm. unfold call_model. destruct (bool_decide _).
  - eapply hoare_bind with (Q := fun _ g => decoder_trainable g);
      [|intros []; apply hoare_ret].
    apply add_node_trainable. simpl. intros H. contradiction.
  - intros g a g' _. discriminate.
Qed.

Lemma new_model_named ins outs name :
  hoare decoder_trainable (new_model ins outs (Some name))
    (fun m g => decoder_trainable g /\ model_name m = name /\
                forall n, In n (nodes m) -> In n (created g)).
Proof.
  intros g m g' HI. unfold new_model, mbind, M_bind, get_created. simpl.
  intros [= <- <-]. split; [exact HI|]. split; [reflexivity|]. simpl.
  intros n Hn. apply ancestors_incl in Hn. now apply in_rev.
Qed.

Lemma new_model_trainable ins outs name :
  hoare decoder_trainable (new_model ins outs name)
    (fun m g => decoder_trainable g /\
                forall n, In n (nodes m) -> In n (created g)).
Proof.
  intros g m g' HI. unfold new_model, mbind, M_bind, get_created.
  destruct name as [nm|]; simpl.
  - intros [= <- <-]. split; [exact HI|]. simpl.
    intros n Hn. apply ancestors_incl in Hn. now apply in_rev.
  - intros [= <- <-]. split; [exact HI|]. simpl.
    intros n Hn. apply ancestors_incl in Hn. now apply in_rev.
Qed.

Lemma inverted_res_block_trainable x expansion stride filters block_id :
  hoare decoder_trainable
    (MobileNetV2.inverted_res_block init x expansion stride filters block_id)
    (fun _ g => decoder_trainable g).
Proof.
  unfold MobileNetV2.inverted_res_block.
  eapply hoare_bind with (Q := fun _ g => decoder_trainable g).
  { destruct (block_id =? 0); [apply hoare_ret|].
    eapply hoare_bind; [apply layer_trainable|]. intros ?.
    eapply hoare_bind; [apply layer_trainable|]. intros ?.
    apply layer_trainable. }
  intros x1.
  eapply hoare_bind with (Q := fun _ g => decoder_trainable g).
  { destruct (stride =? 2); [|apply hoare_ret].
    destruct (MobileNetV2.correct_pad x1 3) as [[t b] [l r]].
    apply layer_trainable. }
  intros x2.
  eapply hoare_bind; [apply layer_trainable|]. intros ?.
  eapply hoare_bind; [apply layer_trainable|]. intros ?.
  eapply hoare_bind; [apply layer_trainable|]. intros ?.
  eapply hoare_bind; [apply layer_trainable|]. intros ?.
  eapply hoare_bind; [apply layer_trainable|]. intros ?.
  destruct (_ && _); [apply layer_trainable|apply hoare_ret].
Qed.

Lemma inverted_res_blocks_trainable bs : forall x,
  hoare decoder_trainable (MobileNetV2.inverted_res_blocks init x bs)
    (fun _ g => decoder_trainable g).
Proof.
  induction bs as [|[[f s] i] bs IH]; intros x; simpl; [apply hoare_ret|].
  eapply hoare_bind; [apply inverted_res_block_trainable|]. exact IH.
Qed.

Lemma MobileNetV2_trainable input_shape :
  hoare decoder_trainable (MobileNetV2.MobileNetV2 init input_shape)
    (fun _ g => decoder_trainable g).
Proof.
  unfold MobileNetV2.MobileNetV2.
  eapply hoare_bind; [apply hoare_lift|]. intros [[rows cols] ch].
  cbv beta iota zeta.
  eapply hoare_bind; [apply layer_trainable|]. intros ?.
  eapply hoare_bind; [apply layer_trainable|]. intros ?.
  eapply hoare_bind; [apply layer_trainable|]. intros ?.
  eapply hoare_bind; [apply layer_trainable|]. intros ?.
  eapply hoare_bind; [apply inverted_res_block_trainable|]. intros ?.
  eapply hoare_bind; [apply inverted_res_blocks_trainable|]. intros ?.
  eapply hoare_bind; [apply layer_trainable|]. intros ?.
  eapply hoare_bind; [apply layer_trainable|]. intros ?.
  eapply hoare_bind; [apply layer_trainable|]. intros ?.
  eapply hoare_weaken; [apply new_model_trainable|]. now intros m g [H _].
Qed.

Lemma upsample_trainable filters size name :
  hoare decoder_trainable (Train.upsample init filters size name)
    (fun u g => decoder_trainable g /\ Forall is_trainable (seq_layers u)).
Proof.
  unfold Train.upsample.
  eapply hoare_bind; [apply new_layer_trainable|]. intros c.
  eapply hoare_bind with
    (Q := fun b g => decoder_trainable g /\ is_trainable c /\ is_trainable b).
  { intros g b g' [HI Hc] E.
    destruct (new_layer_trainable None _ g b g' HI E). auto. }
  intros b.
  eapply hoare_bind with
    (Q := fun r g => decoder_trainable g /\
                     Forall is_trainable [c; b; r]).
  { intros g r g' [HI [Hc Hb]] E.
    destruct (new_layer_trainable None _ g r g' HI E).
    split; [assumption|]. repeat constructor; assumption. }
  intros r g u g' [HI H] [= <- <-]. simpl. auto.
Qed.

Lemma upsampling_trainable pairs : forall idx x,
  Forall (fun p => Forall is_trainable (seq_layers (fst p))) pairs ->
  hoare decoder_trainable (Train.upsampling init idx x pairs)
    (fun _ g => decoder_trainable g).
Proof.
  induction pairs as [|[up skip] pairs IH]; intros idx x Hp; simpl;
    [apply hoare_ret|].
  inversion Hp as [|? ? Hup Hrest]; subst. simpl in Hup.
  eapply hoare_bind; [apply call_sequential_trainable, Hup|]. intros ?.
  eapply hoare_bind; [apply layer_trainable|]. intros ?.
  now apply IH.
Qed.

Lemma zip_trainable (ups : list Sequential) (skips : list KerasTensor) :
  Forall (fun u => Forall is_trainable (seq_layers u)) ups ->
  Forall (fun p => Forall is_trainable (seq_layers (fst p))) (zip ups skips).
Proof.
  intros H. revert skips. induction H as [|u ups Hu _ IH]; intros skips;
    [constructor|].
  destruct skips as [|s skips]; [constructor|].
  simpl. constructor; [exact Hu|apply IH].
Qed.

Lemma build_unet_trainable input_shape output_channels :
  hoare decoder_trainable
    (Train.build_unet init input_shape output_channels)
    (fun m g => forall n, In n (nodes m) ->
                  node_name n <> "pretrained_mobilenet" ->
                  Forall is_trainable (node_layers n)).
Proof.
  unfold Train.build_unet.
  eapply hoare_bind; [apply MobileNetV2_trainable|]. intros base. simpl.
  eapply hoare_bind; [apply hoare_lift|]. intros outs. simpl.
  eapply hoare_bind; [apply new_model_named|]. intros ds.
  eapply hoare_bind with
    (Q := fun u g => (decoder_trainable g /\
                      model_name ds = "pretrained_mobilenet") /\
                     Forall is_trainable (seq_layers u)).
  { intros g u g' (HI & Hn & _) E.
    destruct (upsample_trainable _ _ _ g u g' HI E). auto. }
  intros u1.
  eapply hoare_bind with
    (Q := fun u g => (decoder_trainable g /\
                      model_name ds = "pretrained_mobilenet") /\
                     Forall (fun u => Forall is_trainable (seq_layers u))
                       [u1; u]).
  { intros g u g' [[HI Hn] H1] E.
    destruct (upsample_trainable _ _ _ g u g' HI E).
    repeat split; try assumption. repeat constructor; assumption. }
  intros u2.
  eapply hoare_bind with
    (Q := fun u g => (decoder_trainable g /\
                      model_name ds = "pretrained_mobilenet") /\
                     Forall (fun u => Forall is_trainable (seq_layers u))
                       [u1; u2; u]).
  { intros g u g' [[HI Hn] H12] E.
    destruct (upsample_trainable _ _ _ g u g' HI E).
    inversion H12 as [|? ? H1 H2']; subst. inversion H2'; subst.
    repeat split; try assumption. repeat constructor; assumption. }
  intros u3.
  eapply hoare_bind with
    (Q := fun u g => (decoder_trainable g /\
                      model_name ds = "pretrained_mobilenet") /\
                     Forall (fun u => Forall is_trainable (seq_layers u))
                       [u1; u2; u3; u]).
  { intros g u g' [[HI Hn] H123] E.
    destruct (upsample_trainable _ _ _ g u g' HI E).
    inversion H123 as [|? ? H1 H']; subst. inversion H' as [|? ? H2 H'']; subst.
    inversion H''; subst.
    repeat split; try assumption. repeat constructor; assumption. }
  intros u4.
  eapply hoare_bind with
    (Q := fun _ g => (decoder_trainable g /\
                      model_name ds = "pretrained_mobilenet") /\
                     Forall (fun u => Forall is_trainable (seq_layers u))
                       [u1; u2; u3; u4]).
  { intros g a g' [[HI Hn] Hu] E. repeat split; try assumption.
    exact (layer_trainable _ _ _ g a g' HI E). }
  intros inp.
  eapply hoare_bind with
    (Q := fun _ g => decoder_trainable g /\
                     Forall (fun u => Forall is_trainable (seq_layers u))
                       [u1; u2; u3; u4]).
  { intros g a g' [[HI Hn] Hu] E. split; [|exact Hu].
    exact (call_model_encoder (set_trainable false ds) inp Hn g a g' HI E). }
  intros skips.
  eapply hoare_bind; [apply hoare_lift|]. intros x. simpl.
  eapply hoare_bind with (Q := fun _ g => decoder_trainable g).
  { intros g a g' [HI Hu] E.
    exact (upsampling_trainable _ _ _ (zip_trainable _ _ Hu) g a g' HI E). }
  intros x'.
  eapply hoare_bind; [apply layer_trainable|]. intros y.
  eapply hoare_weaken; [apply new_model_trainable|].
  intros m g [HI Hin] n Hn Hname.
  unfold decoder_trainable in HI. rewrite Forall_forall in HI.
  apply (HI n); [|exact Hname]. apply list_elem_of_In, Hin, Hn.
Qed.

End Trainable.

(** X17.  In every model that [build_unet] composes, whatever the input shape,
    every layer outside the encoder is trainable: the input, the four
    upsampling blocks, the concatenations and the last convolution. *)
Theorem build_unet_decoder_trainable (init : string -> list Q)
    (input_shape : Shape) (output_channels : nat) (m : Model) :
  run (Train.build_unet init input_shape output_channels) = Some m ->
  Forall is_trainable (decoder_layers m).
Proof.
  unfold run. intros H.
  destruct (Train.build_unet init input_shape output_channels empty_graph)
    as [[m0 g]|] eqn:E; [|discriminate].
  simpl in H. injection H as ->.
  assert (H0 : decoder_trainable empty_graph) by constructor.
  pose proof (build_unet_trainable init _ _ _ _ _ H0 E) as Hm.
  unfold decoder_layers.
  assert (Hns : forall n, In n (nodes m) ->
                  node_name n <> "pretrained_mobilenet" ->
                  Forall is_trainable (node_layers n)) by exact Hm.
  clear - Hns. revert Hns. generalize (nodes m). clear.
  intros ns. induction ns as [|n ns IH]; intros Hm; simpl; [constructor|].
  destruct (String.eqb_spec (node_name n) "pretrained_mobilenet") as [Hn|Hn];
    simpl.
  - apply IH. intros n' Hin. apply Hm. now apply in_cons.
  - apply Forall_app. split.
    + apply Hm; [apply in_eq|exact Hn].
    + apply IH. intros n' Hin. apply Hm. now apply in_cons.
Qed.

Lemma build_unet_decoder_trainable_witness :
  exists m,
    run (Train.build_unet ones INPUT_SHAPE OUTPUT_CHANNELS) = Some m /\
    Forall is_trainable (decoder_layers m).
Proof.
  destruct (build_unet_nodes ones OUTPUT_CHANNELS ltac:(vm_compute; lia))
    as [m [Hm _]].
  exists m. split; [exact Hm|].
  exact (build_unet_decoder_trainable ones INPUT_SHAPE OUTPUT_CHANNELS m Hm).
Defined.

(** ** [train_evaluate]: when it returns, and what it saves *)

Lemma train_evaluate_without_output_dir_witness :
  exists w1 w2,
    Train.train_evaluate ones grow 64 "oxford_iiit_pet"
      "gs://asl-public/data/tensorflow_datasets" INPUT_SHAPE OUTPUT_CHANNELS
      1 None pets_world = Some w1 /\
    w1 = pets_world /\
    Train.train_evaluate ones grow 64 "oxford_iiit_pet"
      "gs://asl-public/data/tensorflow_datasets" INPUT_SHAPE OUTPUT_CHANNELS
      1 (Some "") pets_world = Some w2 /\
    w2 = pets_world.
Proof.
  assert (E1 : is_Some (Train.train_evaluate ones grow 64 "oxford_iiit_pet"
                 "gs://asl-public/data/tensorflow_datasets" INPUT_SHAPE
                 OUTPUT_CHANNELS 1 None pets_world)).
  { vm_compute. eexists. reflexivity. }
  assert (E2 : is_Some (Train.train_evaluate ones grow 64 "oxford_iiit_pet"
                 "gs://asl-public/data/tensorflow_datasets" INPUT_SHAPE
                 OUTPUT_CHANNELS 1 (Some "") pets_world)).
  { vm_compute. eexists. reflexivity. }
  destruct E1 as [w1 E1]. destruct E2 as [w2 E2]. exists w1, w2.
  split; [exact E1|]. split.
  { exact (train_evaluate_without_output_dir ones grow 64 "oxford_iiit_pet"
             "gs://asl-public/data/tensorflow_datasets" INPUT_SHAPE
             OUTPUT_CHANNELS 1 None pets_world w1 (or_introl eq_refl) E1). }
  split; [exact E2|].
  exact (train_evaluate_without_output_dir ones grow 64 "oxford_iiit_pet"
           "gs://asl-public/data/tensorflow_datasets" INPUT_SHAPE
           OUTPUT_CHANNELS 1 (Some "") pets_world w2 (or_intror eq_refl) E2).
Defined.

(** What [train_evaluate] returns once its steps are known to succeed. *)
Lemma train_evaluate_Some
    (init : string -> list Q) (update : nat -> Model -> Layer -> list Q)
    (batch_size : nat) (tf_dataset data_dir : string) (input_shape : Shape)
    (output_channels epochs : nat) (output_dir : option string)
    (w : Train.World) (info : Train.Info) (m m' : Model) :
  Train.datasets w !! (data_dir, tf_dataset) = Some info ->
  batch_size <> 0 ->
  run (Train.build_unet init input_shape output_channels) = Some m ->
  fit update (compile m "adam" "SparseCategoricalCrossentropy" ["accuracy"])
    epochs (Train.train_num_examples info / batch_size)
    (Train.test_num_examples info / batch_size) = Some m' ->
  Train.train_evaluate init update batch_size tf_dataset data_dir
    input_shape output_channels epochs output_dir w
  = Some (match Train.truthy output_dir with
          | Some d => Train.save m' d w
          | None => w
          end).
Proof.
  intros Hinfo Hb Hm Hfit. unfold Train.train_evaluate.
  rewrite Hinfo. simpl.
  destruct (Nat.eqb_spec batch_size 0) as [|_]; [contradiction|].
  rewrite Hm. simpl. rewrite Hfit. simpl.
  now destruct (Train.truthy output_dir).
Qed.

(** When the steps of [train_evaluate] succeed. *)
Lemma train_evaluate_is_Some
    (init : string -> list Q) (update : nat -> Model -> Layer -> list Q)
    (batch_size : nat) (tf_dataset data_dir : string) (input_shape : Shape)
    (output_channels epochs : nat) (output_dir : option string)
    (w : Train.World) :
  is_Some (Train.train_evaluate init update batch_size tf_dataset data_dir
             input_shape output_channels epochs output_dir w) <->
  exists info,
    Train.datasets w !! (data_dir, tf_dataset) = Some info /\
    batch_size <> 0 /\
    is_Some (run (Train.build_unet init input_shape output_channels)) /\
    (epochs = 0 \/ batch_size <= Train.train_num_examples info).
Proof.
  unfold Train.train_evaluate.
  destruct (Train.datasets w !! (data_dir, tf_dataset)) as [info|]; simpl.
  2: { split; [intros [? H]; discriminate|intros (? & H & _); discriminate]. }
  destruct (Nat.eqb_spec batch_size 0) as [Hb|Hb].
  { split; [intros [? H]; discriminate|].
    intros (? & _ & H & _). contradiction. }
  destruct (run (Train.build_unet init input_shape output_channels))
    as [m|]; simpl.
  2: { split; [intros [? H]; discriminate|].
       intros (? & _ & _ & [? H] & _). discriminate. }
  unfold fit, compile. simpl.
  assert (Hs : Train.train_num_examples info / batch_size = 0 <->
               Train.train_num_examples info < batch_size)
    by (apply Nat.div_small_iff; exact Hb).
  destruct (Nat.ltb_spec 0 epochs) as [He|He];
    destruct (Nat.eqb_spec (Train.train_num_examples info / batch_size) 0)
      as [Hz|Hz]; simpl.
  - split; [intros [? H]; discriminate|].
    intros (i & [= <-] & _ & _ & [?|?]); lia.
  - split.
    + intros _. exists info. repeat split; eauto. right. lia.
    + intros _. destruct (Train.truthy output_dir); eauto.
  - split.
    + intros _. exists info. repeat split; eauto. left. lia.
    + intros _. destruct (Train.truthy output_dir); eauto.
  - split.
    + intros _. exists info. repeat split; eauto. left. lia.
    + intros _. destruct (Train.truthy output_dir); eauto.
Qed.

(** X18.  [train_evaluate] raises when the dataset cannot be loaded, when the
    batch size is zero, when [build_unet] raises, and when there are epochs
    to train but the training split holds less than one batch: then
    [steps_per_epoch] is zero and [fit] has no step to run. *)
Theorem train_evaluate_raises
    (init : string -> list Q) (update : nat -> Model -> Layer -> list Q)
    (batch_size : nat) (tf_dataset data_dir : string) (input_shape : Shape)
    (output_channels epochs : nat) (output_dir : option string)
    (w : Train.World) :
  (forall info,
     Train.datasets w !! (data_dir, tf_dataset) = Some info ->
     batch_size = 0 \/
     run (Train.build_unet init input_shape output_channels) = None \/
     (0 < epochs /\ Train.train_num_examples info < batch_size)) ->
  Train.train_evaluate init update batch_size tf_dataset data_dir
    input_shape output_channels epochs output_dir w = None.
Proof.
  intros H.
  destruct (Train.train_evaluate init update batch_size tf_dataset data_dir
              input_shape output_channels epochs output_dir w)
    as [w'|] eqn:E; [|reflexivity].
  exfalso.
  destruct (proj1 (train_evaluate_is_Some init update batch_size tf_dataset
                     data_dir input_shape output_channels epochs output_dir
                     w) (ex_intro _ w' E))
    as (info & Hinfo & Hb & [m Hm] & He).
  destruct (H info Hinfo) as [?|[Hn|[? ?]]]; [lia|congruence|lia].
Qed.

Lemma train_evaluate_raises_witness :
  Train.train_evaluate ones grow 4000 "oxford_iiit_pet"
    "gs://asl-public/data/tensorflow_datasets" INPUT_SHAPE OUTPUT_CHANNELS
    1 None pets_world = None.
Proof.
  apply train_evaluate_raises. intros info Hinfo.
  right. right. vm_compute in Hinfo. injection Hinfo as <-.
  simpl. lia.
Defined.

Section Architecture.

Variable update : nat -> Model -> Layer -> list Q.

Lemma train_layer_signature k m l :
  signature (train_layer update k m l) = signature l.
Proof. unfold train_layer. now destruct (_ && _). Qed.

Lemma train_step_architecture k m :
  map describe (nodes (train_step update k m)) = map describe (nodes m) /\
  map signature (model_layers (train_step update k m))
  = map signature (model_layers m).
Proof.
  unfold train_step, model_layers. simpl.
  induction (nodes m) as [|n ns [IH1 IH2]]; simpl; [auto|].
  rewrite IH1. rewrite !map_app, IH2. split.
  - f_equal. unfold describe. simpl. f_equal. rewrite map_map.
    apply map_ext. intros l.
    exact (f_equal (fun s => snd (fst s)) (train_layer_signature k m l)).
  - f_equal. rewrite map_map. apply map_ext. intros l.
    apply train_layer_signature.
Qed.

Lemma train_steps_architecture n : forall k m,
  map describe (nodes (train_steps update k n m)) = map describe (nodes m) /\
  map signature (model_layers (train_steps update k n m))
  = map signature (model_layers m) /\
  inputs (train_steps update k n m) = inputs m /\
  outputs (train_steps update k n m) = outputs m /\
  compiled (train_steps update k n m) = compiled m.
Proof.
  induction n as [|n IH]; intros k m; simpl; [auto|].
  destruct (IH (S k) (train_step update k m)) as (H1 & H2 & H3 & H4 & H5).
  destruct (train_step_architecture k m) as [E1 E2].
  rewrite H1, H2, H3, H4, H5, E1, E2. auto.
Qed.

End Architecture.

(** X20.  The model that [train_evaluate] leaves at [output_dir] is the model
    that [build_unet] composes, trained: it has the same nodes, shapes,
    operations, layer names and [trainable] flags, the same inputs and
    outputs, the encoder with the weights it was built with, and the
    optimizer, loss and metric of the script. *)
Theorem train_evaluate_saved_model
    (init : string -> list Q) (update : nat -> Model -> Layer -> list Q)
    (batch_size : nat) (tf_dataset data_dir : string) (input_shape : Shape)
    (output_channels epochs : nat) (output_dir : string)
    (w w' : Train.World) :
  Train.train_evaluate init update batch_size tf_dataset data_dir
    input_shape output_channels epochs (Some output_dir) w = Some w' ->
  output_dir <> "" ->
  exists m m',
    run (Train.build_unet init input_shape output_channels) = Some m /\
    Train.saved w' !! output_dir = Some m' /\
    map describe (nodes m') = map describe (nodes m) /\
    map signature (model_layers m') = map signature (model_layers m) /\
    inputs m' = inputs m /\ outputs m' = outputs m /\
    encoder_layers m' = encoder_layers m /\
    compiled m' = Some adam_compiled.
Proof.
  unfold Train.train_evaluate. intros H Hd.
  destruct (Train.datasets w !! (data_dir, tf_dataset)) as [info|];
    simpl in H; [|discriminate].
  destruct (batch_size =? 0); [discriminate|].
  destruct (run (Train.build_unet init input_shape output_channels))
    as [m|] eqn:Hm; simpl in H; [|discriminate].
  destruct (fit update _ _ _ _) as [m'|] eqn:Hfit; simpl in H; [|discriminate].
  destruct (String.eqb_spec output_dir "") as [|_]; [contradiction|].
  injection H as <-. exists m, m'. split; [reflexivity|].
  split; [apply lookup_insert_eq|].
  pose proof (build_unet_encoder_frozen init _ _ _ Hm) as Hfr.
  pose proof (fit_encoder_layers update (compile m "adam"
                "SparseCategoricalCrossentropy" ["accuracy"]) _ _ _ _
                Hfr Hfit) as He.
  unfold fit in Hfit. simpl in Hfit.
  destruct (_ && _); [discriminate|]. injection Hfit as <-.
  destruct (train_steps_architecture update
              (epochs * (Train.train_num_examples info / batch_size)) 0
              (compile m "adam" "SparseCategoricalCrossentropy" ["accuracy"]))
    as (H1 & H2 & H3 & H4 & H5).
  repeat split; assumption.
Qed.

Lemma train_evaluate_saved_model_witness :
  exists w' m m',
    Train.train_evaluate ones grow 64 "oxford_iiit_pet"
      "gs://asl-public/data/tensorflow_datasets" INPUT_SHAPE OUTPUT_CHANNELS
      1 (Some "trained_unet") pets_world = Some w' /\
    run (Train.build_unet ones INPUT_SHAPE OUTPUT_CHANNELS) = Some m /\
    Train.saved w' !! "trained_unet" = Some m' /\
    map describe (nodes m') = map describe (nodes m) /\
    map signature (model_layers m') = map signature (model_layers m) /\
    inputs m' = inputs m /\ outputs m' = outputs m /\
    encoder_layers m' = encoder_layers m /\
    compiled m' = Some adam_compiled.
Proof.
  assert (E : is_Some (Train.train_evaluate ones grow 64 "oxford_iiit_pet"
                "gs://asl-public/data/tensorflow_datasets" INPUT_SHAPE
                OUTPUT_CHANNELS 1 (Some "trained_unet") pets_world)).
  { vm_compute. eexists. reflexivity. }
  destruct E as [w' E]. exists w'.
  destruct (train_evaluate_saved_model ones grow 64 "oxford_iiit_pet"
              "gs://asl-public/data/tensorflow_datasets" INPUT_SHAPE
              OUTPUT_CHANNELS 1 "trained_unet" pets_world w' E
              ltac:(discriminate)) as (m & m' & H).
  exists m, m'. split; [exact E|exact H].
Defined.

(** ** The training job *)

Lemma OUTPUT_DIR_not_empty BUCKET TIMESTAMP : OUTPUT_DIR BUCKET TIMESTAMP <> "".
Proof. discriminate. Qed.

(** X21.  When the run of [train.py] in the training job (input [128,128,3],
    batches of 64, 50 epochs) has returned, whatever the project and the
    time stamp are: the training split held at least 64 examples, and the
    trained model is saved at [OUTPUT_DIR], which is never the empty path,
    with its encoder of 150 frozen layers and its output of
    [128,128,3]; every other saved model and the datasets are as before. *)
Theorem custom_job_saves_model
    (init : string -> list Q) (update : nat -> Model -> Layer -> list Q)
    (BUCKET TIMESTAMP : string) (w w' : Train.World) :
  custom_job init update BUCKET TIMESTAMP w = Some w' ->
  exists info m',
    Train.datasets w
      !! ("gs://asl-public/data/tensorflow_datasets", "oxford_iiit_pet")
    = Some info /\
    64 <= Train.train_num_examples info /\
    Train.saved w' !! OUTPUT_DIR BUCKET TIMESTAMP = Some m' /\
    length (encoder_layers m') = 150 /\
    Forall frozen (encoder_layers m') /\
    map kt_shape (outputs m') = [(128, 128, 3)] /\
    compiled m' = Some adam_compiled /\
    (forall path, path <> OUTPUT_DIR BUCKET TIMESTAMP ->
       Train.saved w' !! path = Train.saved w !! path) /\
    Train.datasets w' = Train.datasets w.
Proof.
  unfold custom_job. intros H.
  apply train_evaluate_inv in H
    as (info & m & m' & Hinfo & _ & Hm & Hfit & ->).
  change (Train.truthy (Some (OUTPUT_DIR BUCKET TIMESTAMP)))
    with (Some (OUTPUT_DIR BUCKET TIMESTAMP)).
  destruct (build_unet_nodes init 3 ltac:(lia))
    as [m0 (Hm0 & Hc & _ & Ho & _ & _ & _ & Hfr & Hlen & _)].
  change (128, 128, 3) with INPUT_SHAPE in Hm. rewrite Hm0 in Hm.
  injection Hm as ->.
  apply forallb_frozen in Hfr.
  set (cm := compile m "adam" "SparseCategoricalCrossentropy" ["accuracy"])
    in *.
  pose proof (fit_encoder_layers update cm _ _ _ _ Hfr Hfit) as He.
  assert (Hsteps : Train.train_num_examples info / 64 <> 0 /\
                   m' = train_steps update 0
                          (JOB_EPOCHS * (Train.train_num_examples info / 64))
                          cm).
  { revert Hfit. unfold fit. subst cm. cbn [compiled compile].
    change (0 <? JOB_EPOCHS) with true. cbn [andb].
    destruct (Nat.eqb_spec (Train.train_num_examples info / 64) 0);
      [discriminate|]. intros [= <-]. split; [assumption|reflexivity]. }
  destruct Hsteps as [Hsteps Em'].
  destruct (train_steps_architecture update
              (JOB_EPOCHS * (Train.train_num_examples info / 64)) 0 cm)
    as (_ & _ & _ & H4 & H5).
  rewrite <- Em' in H4, H5.
  exists info, m'. split; [exact Hinfo|]. split.
  { destruct (Nat.le_gt_cases 64 (Train.train_num_examples info)) as [|Hlt];
      [assumption|]. exfalso. apply Hsteps. now apply Nat.div_small. }
  split; [apply lookup_insert_eq|].
  rewrite He, H4, H5. repeat split; try assumption.
  - subst cm. simpl. now rewrite Ho.
  - intros path Hp. unfold Train.save. simpl. now apply lookup_insert_ne.
Qed.

Lemma custom_job_saves_model_witness :
  exists w' info m',
    custom_job ones grow "my-project" "20240101000000" pets_world = Some w' /\
    Train.datasets pets_world
      !! ("gs://asl-public/data/tensorflow_datasets", "oxford_iiit_pet")
    = Some info /\
    64 <= Train.train_num_examples info /\
    Train.saved w' !! OUTPUT_DIR "my-project" "20240101000000" = Some m' /\
    length (encoder_layers m') = 150 /\
    Forall frozen (encoder_layers m') /\
    map kt_shape (outputs m') = [(128, 128, 3)] /\
    compiled m' = Some adam_compiled /\
    (forall path, path <> OUTPUT_DIR "my-project" "20240101000000" ->
       Train.saved w' !! path = Train.saved pets_world !! path) /\
    Train.datasets w' = Train.datasets pets_world.
Proof.
  assert (E : is_Some (custom_job ones grow "my-project" "20240101000000"
                         pets_world)).
  { vm_compute. eexists. reflexivity. }
  destruct E as [w' E]. exists w'.
  destruct (custom_job_saves_model ones grow "my-project" "20240101000000"
              pets_world w' E) as (info & m' & H).
  exists info, m'. split; [exact E|exact H].
Defined.
